(** * PA100-D <-> Thetis remote control server: the relay engine of
      [client_server/server.js]

    The development embeds the event handlers of [server.js] as functions
    of a small state-and-output monad over the script's global variables,
    and proves properties of the serial line framer, the retry and poll
    timers, the client gateway and the broadcast helper. *)

From Stdlib Require Import List NArith Bool Arith Lia String Ascii.
From Stdlib.Strings Require Byte.
Import ListNotations.

Set Implicit Arguments.

(* ================================================================= *)
(** ** JavaScript strings *)

(** A JavaScript string is a sequence of UTF-16 code units; [length] is
    the [.length] property. *)
Module JS.

Definition jsstring := list N.

Definition LF : N := 10%N.
Definition CR : N := 13%N.

(** ASCII literals of the script. *)
Definition js (s : string) : jsstring :=
  map N_of_ascii (list_ascii_of_string s).
Arguments js s%_string.

(** Decimal rendering of a non-negative integer inside a template
    literal. *)
Fixpoint digits (d : Decimal.uint) : jsstring :=
  match d with
  | Decimal.Nil => []
  | Decimal.D0 d => 48%N :: digits d
  | Decimal.D1 d => 49%N :: digits d
  | Decimal.D2 d => 50%N :: digits d
  | Decimal.D3 d => 51%N :: digits d
  | Decimal.D4 d => 52%N :: digits d
  | Decimal.D5 d => 53%N :: digits d
  | Decimal.D6 d => 54%N :: digits d
  | Decimal.D7 d => 55%N :: digits d
  | Decimal.D8 d => 56%N :: digits d
  | Decimal.D9 d => 57%N :: digits d
  end.

(** A number inside a template literal, for the integers that a
    JavaScript number holds exactly and prints in full, those below
    [2^53]; from [10^21] on JavaScript prints an exponent. *)
Definition numberToString (n : N) : jsstring := digits (N.to_uint n).

(** [s.replace(/\r/g, '')] *)
Definition replaceCR (s : jsstring) : jsstring :=
  filter (fun c => negb (c =? CR)%N) s.

(** [s.split(sep)] for a separator of one code unit: the result always
    has at least one element, and [split sep ""] is [[""]]. *)
Fixpoint split (sep : N) (s : jsstring) : list jsstring :=
  match s with
  | [] => [[]]
  | c :: s' =>
      if (c =? sep)%N then [] :: split sep s'
      else match split sep s' with
           | [] => [[c]]
           | seg :: segs => (c :: seg) :: segs
           end
  end.

(** [a.pop()]: the last element ([None] stands for [undefined], on an
    empty array) and the array that is left. *)
Fixpoint pop (A : Type) (a : list A) : option A * list A :=
  match a with
  | [] => (None, [])
  | x :: a' =>
      match a' with
      | [] => (Some x, [])
      | _ :: _ => let (last, rest) := pop a' in (last, x :: rest)
      end
  end.

(** The code units that [String.prototype.trim] strips: ECMAScript
    WhiteSpace (TAB, VT, FF, SP, NBSP, ZWNBSP and the Unicode space
    separators) and LineTerminator (LF, CR, LS, PS). *)
Definition isWhiteSpace (c : N) : bool :=
  ((c =? 9) || (c =? 10) || (c =? 11) || (c =? 12) || (c =? 13)
   || (c =? 32) || (c =? 160) || (c =? 5760)
   || ((8192 <=? c) && (c <=? 8202))
   || (c =? 8232) || (c =? 8233) || (c =? 8239) || (c =? 8287)
   || (c =? 12288) || (c =? 65279))%N.

Fixpoint trimStart (s : jsstring) : jsstring :=
  match s with
  | [] => []
  | c :: s' => if isWhiteSpace c then trimStart s' else s
  end.

Definition trimEnd (s : jsstring) : jsstring := rev (trimStart (rev s)).

(** [s.trim()] *)
Definition trim (s : jsstring) : jsstring := trimEnd (trimStart s).

(** [s.startsWith(p)] *)
Fixpoint startsWith (s p : jsstring) : bool :=
  match p, s with
  | [], _ => true
  | _ :: _, [] => false
  | a :: p', b :: s' => (a =? b)%N && startsWith s' p'
  end.

(** [s.substring(n)] *)
Definition substring (s : jsstring) (n : nat) : jsstring := skipn n s.

Fixpoint eqb (s t : jsstring) : bool :=
  match s, t with
  | [], [] => true
  | a :: s', b :: t' => (a =? b)%N && eqb s' t'
  | _, _ => false
  end.

End JS.
Import JS.

(* ================================================================= *)
(** ** Buffers *)

(** A chunk of the serial port is a [Buffer], a sequence of bytes.
    [toString] follows the UTF-8 decoder of the Encoding Standard, as
    Node does: an ill-formed or unfinished sequence is replaced by
    U+FFFD, and a byte order mark is kept. *)
Module Buffer.

Local Open Scope N_scope.

(** The UTF-8 decoder between two bytes: at a character boundary, or
    inside a sequence that needs [needed] more bytes, the next of them
    between [lower] and [upper], with the bits [point] read so far. *)
Inductive Decoder :=
| Idle
| Pending (needed : nat) (point lower upper : N).

Definition REPLACEMENT : N := 0xFFFD.

(** The code units of a code point: itself, or a surrogate pair. *)
Definition codeUnits (point : N) : jsstring :=
  if point <? 0x10000 then [point]
  else [0xD800 + (point - 0x10000) / 0x400;
        0xDC00 + (point - 0x10000) mod 0x400].

(** A byte at a character boundary. *)
Definition lead (b : N) : Decoder * jsstring :=
  if b <=? 0x7F then (Idle, [b])
  else if (0xC2 <=? b) && (b <=? 0xDF) then
    (Pending 1 (N.land b 0x1F) 0x80 0xBF, [])
  else if (0xE0 <=? b) && (b <=? 0xEF) then
    (Pending 2 (N.land b 0xF)
       (if b =? 0xE0 then 0xA0 else 0x80)
       (if b =? 0xED then 0x9F else 0xBF), [])
  else if (0xF0 <=? b) && (b <=? 0xF4) then
    (Pending 3 (N.land b 0x7)
       (if b =? 0xF0 then 0x90 else 0x80)
       (if b =? 0xF4 then 0x8F else 0xBF), [])
  else (Idle, [REPLACEMENT]).

(** One byte: the decoder afterwards and the code units it yields.  A
    byte that cannot continue the sequence ends it with U+FFFD and is
    read again as a first byte. *)
Definition decodeByte (d : Decoder) (b : N) : Decoder * jsstring :=
  match d with
  | Idle => lead b
  | Pending needed point lower upper =>
      if (lower <=? b) && (b <=? upper) then
        let point := point * 64 + N.land b 0x3F in
        match needed with
        | S (S n) => (Pending (S n) point 0x80 0xBF, [])
        | _ => (Idle, codeUnits point)
        end
      else
        let (d', units) := lead b in (d', REPLACEMENT :: units)
  end.

(** The rest of a buffer; a sequence cut short by the end of the buffer
    yields U+FFFD. *)
Fixpoint decode (d : Decoder) (data : list Byte.byte) : jsstring :=
  match data with
  | [] => match d with Idle => [] | Pending _ _ _ _ => [REPLACEMENT] end
  | b :: data' =>
      let (d', units) := decodeByte d (Byte.to_N b) in
      units ++ decode d' data'
  end.

(** [data.toString()]: the buffer decoded as UTF-8. *)
Definition toString (data : list Byte.byte) : jsstring := decode Idle data.

(** The decoder after the bytes [data]. *)
Fixpoint decoderAfter (d : Decoder) (data : list Byte.byte) : Decoder :=
  match data with
  | [] => d
  | b :: data' => decoderAfter (fst (decodeByte d (Byte.to_N b))) data'
  end.

(** The buffer ends at a character boundary. *)
Definition wholeCharacters (data : list Byte.byte) : bool :=
  match decoderAfter Idle data with Idle => true | Pending _ _ _ _ => false end.

End Buffer.
Import Buffer.

(* ================================================================= *)
(** ** Configuration, globals and the outside world *)

(** A value read from [server_config.json] where only strings matter:
    absent, [null], a string, or anything else (number, boolean, object,
    array). *)
Inductive ConfigValue :=
| CfgUndefined
| CfgNull
| CfgString (s : jsstring)
| CfgOther.

(** The constants computed from the configuration at start-up, for a
    configuration whose port, baud rate and poll interval are
    non-negative integers ([0] never shows: the script replaces it by
    the default). *)
Record Config := {
  DEBUG : bool;
  AUTH_TOKEN : ConfigValue;
  WS_PORT : N;
  SERIAL_PORT : jsstring;
  SERIAL_BAUDRATE : N;
  POLL_INTERVAL : N
}.

(** [WebSocket.readyState] *)
Inductive ReadyState := CONNECTING | OPEN | CLOSING | CLOSED.

Definition isOpen (r : ReadyState) : bool :=
  match r with OPEN => true | _ => false end.

(** One accepted socket of [wss.clients].  [token] is what
    [urlObj.searchParams.get('token')] returned for its request ([None]
    is [null]); [ip] is the variable [ip] its listeners close over;
    [listening] tells whether the connection handler went on to register
    the [message] and [close] listeners. *)
Record Client := {
  cid : nat;
  readyState : ReadyState;
  token : option jsstring;
  ip : option jsstring;
  listening : bool
}.

Record WebSocketServer := {
  port : N;
  clients : list Client
}.

(** What [setTimeout] was given. *)
Inductive Callback := InitSerialPort.

Record Timeout := {
  callback : Callback;
  delay : N
}.

(** What [setInterval] returned ([timer]) and was given. *)
Record Interval := {
  timer : nat;
  period : N
}.

(** The global variables of the script, the timers that are pending and
    the counters that name new timers and sockets.  [ports] has an entry
    for every [SerialPort] object made so far, in the order they were
    made: the number of times [setupSerialHandlers] attached its three
    listeners to that object.  [serial] names the object the global
    [serial] holds ([None] while it is [undefined]).  [down] names the
    sockets whose transport has failed without the ws library having
    noticed yet: they are still open, and what is sent to them is
    lost. *)
Record State := {
  wss : option WebSocketServer;
  serialConnected : bool;
  pollTimer : option nat;
  serialBuffer : jsstring;
  timeouts : list Timeout;
  intervals : list Interval;
  nextTimer : nat;
  nextClient : nat;
  serial : option nat;
  ports : list nat;
  down : list nat
}.

Inductive Level := LOG | WARN | ERROR.

(** What the handlers do to the outside world, in order. *)
Inductive Effect :=
| Console (lvl : Level) (text : jsstring)
| NewSerialPort (path : jsstring) (baudRate : N)
| SerialOpen
| SerialWrite (data : jsstring)
| NewWebSocketServer (port : N)
| WsSend (c : nat) (message : jsstring)
| WsClose (c : nat).

(** What the event loop delivers.  Each constructor is one invocation of
    the listener or callback it names; the serial listeners and the
    [open] callback may be invoked at any time (how many listeners an
    event of a port object runs is the matter of [portEmit] below).
    [EvWsConnection] is a
    connection whose request target [new URL] could parse (one it cannot
    parse raises in the listener and ends the process).
    [EvWsTransportDown] is no callback of the script: the connection
    under a socket breaks, which the ws library notices later
    ([EvWsPeerClosing], [EvWsClose]). *)
Inductive Event :=
| EvOpenCallback (err : option jsstring)
| EvSerialError (message : jsstring)
| EvSerialClose
| EvSerialData (data : jsstring)
| EvWriteCallback (err : option jsstring)
| EvTimeout
| EvInterval (id : nat)
| EvWsConnection (remoteAddress : option jsstring) (token : option jsstring)
| EvWsMessage (c : nat) (message : jsstring)
| EvWsPeerClosing (c : nat)
| EvWsClose (c : nat)
| EvWsTransportDown (c : nat).

(* ----------------------------------------------------------------- *)
(** *** Field updates *)

Definition set_wss (w : option WebSocketServer) (s : State) : State :=
  {| wss := w; serialConnected := serialConnected s;
     pollTimer := pollTimer s; serialBuffer := serialBuffer s;
     timeouts := timeouts s; intervals := intervals s;
     nextTimer := nextTimer s; nextClient := nextClient s;
     serial := serial s; ports := ports s; down := down s |}.

Definition set_serialConnected (b : bool) (s : State) : State :=
  {| wss := wss s; serialConnected := b;
     pollTimer := pollTimer s; serialBuffer := serialBuffer s;
     timeouts := timeouts s; intervals := intervals s;
     nextTimer := nextTimer s; nextClient := nextClient s;
     serial := serial s; ports := ports s; down := down s |}.

Definition set_pollTimer (t : option nat) (s : State) : State :=
  {| wss := wss s; serialConnected := serialConnected s;
     pollTimer := t; serialBuffer := serialBuffer s;
     timeouts := timeouts s; intervals := intervals s;
     nextTimer := nextTimer s; nextClient := nextClient s;
     serial := serial s; ports := ports s; down := down s |}.

Definition set_serialBuffer (b : jsstring) (s : State) : State :=
  {| wss := wss s; serialConnected := serialConnected s;
     pollTimer := pollTimer s; serialBuffer := b;
     timeouts := timeouts s; intervals := intervals s;
     nextTimer := nextTimer s; nextClient := nextClient s;
     serial := serial s; ports := ports s; down := down s |}.

Definition set_timeouts (t : list Timeout) (s : State) : State :=
  {| wss := wss s; serialConnected := serialConnected s;
     pollTimer := pollTimer s; serialBuffer := serialBuffer s;
     timeouts := t; intervals := intervals s;
     nextTimer := nextTimer s; nextClient := nextClient s;
     serial := serial s; ports := ports s; down := down s |}.

Definition set_intervals (i : list Interval) (s : State) : State :=
  {| wss := wss s; serialConnected := serialConnected s;
     pollTimer := pollTimer s; serialBuffer := serialBuffer s;
     timeouts := timeouts s; intervals := i;
     nextTimer := nextTimer s; nextClient := nextClient s;
     serial := serial s; ports := ports s; down := down s |}.

Definition set_nextTimer (n : nat) (s : State) : State :=
  {| wss := wss s; serialConnected := serialConnected s;
     pollTimer := pollTimer s; serialBuffer := serialBuffer s;
     timeouts := timeouts s; intervals := intervals s;
     nextTimer := n; nextClient := nextClient s;
     serial := serial s; ports := ports s; down := down s |}.

Definition set_nextClient (n : nat) (s : State) : State :=
  {| wss := wss s; serialConnected := serialConnected s;
     pollTimer := pollTimer s; serialBuffer := serialBuffer s;
     timeouts := timeouts s; intervals := intervals s;
     nextTimer := nextTimer s; nextClient := n;
     serial := serial s; ports := ports s; down := down s |}.

Definition set_serial (p : option nat) (s : State) : State :=
  {| wss := wss s; serialConnected := serialConnected s;
     pollTimer := pollTimer s; serialBuffer := serialBuffer s;
     timeouts := timeouts s; intervals := intervals s;
     nextTimer := nextTimer s; nextClient := nextClient s;
     serial := p; ports := ports s; down := down s |}.

Definition set_ports (l : list nat) (s : State) : State :=
  {| wss := wss s; serialConnected := serialConnected s;
     pollTimer := pollTimer s; serialBuffer := serialBuffer s;
     timeouts := timeouts s; intervals := intervals s;
     nextTimer := nextTimer s; nextClient := nextClient s;
     serial := serial s; ports := l; down := down s |}.

Definition set_down (l : list nat) (s : State) : State :=
  {| wss := wss s; serialConnected := serialConnected s;
     pollTimer := pollTimer s; serialBuffer := serialBuffer s;
     timeouts := timeouts s; intervals := intervals s;
     nextTimer := nextTimer s; nextClient := nextClient s;
     serial := serial s; ports := ports s; down := l |}.

(** The transport of the socket [c] has failed. *)
Definition isDown (c : nat) (s : State) : bool := existsb (Nat.eqb c) (down s).

(** One more set of listeners on the port object [p]. *)
Fixpoint attach (p : nat) (l : list nat) : list nat :=
  match l, p with
  | [], _ => []
  | n :: l', 0 => S n :: l'
  | n :: l', S p' => n :: attach p' l'
  end.

(** How many times the listeners were attached to the port object [p]. *)
Definition listenersOf (p : nat) (s : State) : nat := nth p (ports s) 0.

(** The port objects after one more attachment to the one in [serial]. *)
Definition attachedPorts (s : State) : list nat :=
  match serial s with
  | Some p => attach p (ports s)
  | None => ports s
  end.

Definition set_clients (l : list Client) (s : State) : State :=
  match wss s with
  | None => s
  | Some w => set_wss (Some {| port := port w; clients := l |}) s
  end.

Definition set_readyState (r : ReadyState) (c : Client) : Client :=
  {| cid := cid c; readyState := r; token := token c; ip := ip c;
     listening := listening c |}.

Definition set_listening (b : bool) (c : Client) : Client :=
  {| cid := cid c; readyState := readyState c; token := token c;
     ip := ip c; listening := b |}.

Definition set_ip (i : option jsstring) (c : Client) : Client :=
  {| cid := cid c; readyState := readyState c; token := token c;
     ip := i; listening := listening c |}.

(** Apply [f] to the socket named [c]. *)
Definition update_client (c : nat) (f : Client -> Client)
    (l : list Client) : list Client :=
  map (fun x => if cid x =? c then f x else x) l.

Definition find_client (c : nat) (l : list Client) : option Client :=
  find (fun x => cid x =? c) l.

(* ================================================================= *)
(** ** The handler monad: global state and ordered output *)

Definition M (A : Type) : Type := State -> A * State * list Effect.

Definition ret (A : Type) (a : A) : M A := fun s => (a, s, []).

Definition bind (A B : Type) (m : M A) (k : A -> M B) : M B :=
  fun s =>
    let '(a, s1, o1) := m s in
    let '(b, s2, o2) := k a s1 in
    (b, s2, o1 ++ o2).

Definition get : M State := fun s => (s, s, []).
Definition modify (f : State -> State) : M unit := fun s => (tt, f s, []).
Definition emit (e : Effect) : M unit := fun s => (tt, s, [e]).

Declare Scope js_scope.
Delimit Scope js_scope with js.
Notation "x <- m ;; k" := (bind m (fun x => k))
  (at level 61, m at next level, right associativity) : js_scope.
Notation "m ;; k" := (bind m (fun _ => k))
  (at level 61, right associativity) : js_scope.
Open Scope js_scope.

(** [a.forEach(f)] *)
Fixpoint forEach (A : Type) (a : list A) (f : A -> M unit) : M unit :=
  match a with
  | [] => ret tt
  | x :: a' => f x ;; forEach a' f
  end.

(** [if (c) { m }] *)
Definition when (c : bool) (m : M unit) : M unit :=
  if c then m else ret tt.

(** State and output of running [m] from [s]. *)
Definition exec (A : Type) (m : M A) (s : State) : State * list Effect :=
  let '(_, s', o) := m s in (s', o).

Definition state_of (A : Type) (m : M A) (s : State) : State :=
  fst (exec m s).

Definition output_of (A : Type) (m : M A) (s : State) : list Effect :=
  snd (exec m s).

(** An open socket starts its closing handshake. *)
Definition closing (x : Client) : Client :=
  if isOpen (readyState x) then set_readyState CLOSING x else x.

Definition the_clients (s : State) : list Client :=
  match wss s with
  | Some w => clients w
  | None => []
  end.

(* ================================================================= *)
(** ** The script *)

Section Server.

Variable cfg : Config.

Definition console_log (text : jsstring) : M unit := emit (Console LOG text).
Definition console_warn (text : jsstring) : M unit := emit (Console WARN text).
Definition console_error (text : jsstring) : M unit :=
  emit (Console ERROR text).

(** [setTimeout(cb, ms)]; the handle it returns is dropped by every
    caller in the script. *)
Definition setTimeout (cb : Callback) (ms : N) : M unit :=
  modify (fun s =>
    set_timeouts (timeouts s ++ [{| callback := cb; delay := ms |}]) s).

(** [setInterval(cb, ms)]; the only callback is the poll tick. *)
Definition setInterval (ms : N) : M nat :=
  fun s =>
    (nextTimer s,
     set_nextTimer (S (nextTimer s))
       (set_intervals
          (intervals s ++ [{| timer := nextTimer s; period := ms |}]) s),
     []).

(** [clearInterval(t)] *)
Definition clearInterval (t : nat) : M unit :=
  modify (fun s =>
    set_intervals (filter (fun i => negb (timer i =? t)) (intervals s)) s).

(** [client.send(message)] on an open socket, after [send] of the ws
    library: the frame is handed to the transport and the call returns
    normally, also when the transport has failed.  The value tells
    whether the transport took the frame; ws passes a failure to the
    callback of [send], and the script gives none, so it never sees this
    value.  [WsSend] stands for the call. *)
Definition send (client : Client) (message : jsstring) : M bool :=
  s <- get ;;
  emit (WsSend (cid client) message) ;;
  ret (negb (isDown (cid client) s)).

(** [ws.close()] on a socket of the ws library: an open socket starts
    its closing handshake. *)
Definition wsClose (c : nat) : M unit :=
  modify (fun s => set_clients (update_client c closing (the_clients s)) s) ;;
  emit (WsClose c).

(** [const debugLog = (msg) => { if (DEBUG) console.log(msg); }] *)
Definition debugLog (msg : jsstring) : M unit :=
  when (DEBUG cfg) (console_log msg).

(** [client !== sender] *)
Definition notSender (client : Client) (sender : option nat) : bool :=
  match sender with
  | None => true
  | Some c => negb (cid client =? c)
  end.

(** [global.broadcastToClients = (message, sender = null) => ...] *)
Definition broadcastToClients (message : jsstring) (sender : option nat)
    : M unit :=
  s <- get ;;
  match wss s with
  | None => ret tt
  | Some w =>
      forEach (clients w) (fun client =>
        when (notSender client sender && isOpen (readyState client))
          (send client message ;; ret tt))
  end.

(** [function initSerialPort()], up to the call of [serial.open]; the
    callback given to [open] is [openCallback].  The new port object
    takes the place of the one [serial] held, which is neither closed
    nor stripped of its listeners. *)
Definition initSerialPort : M unit :=
  console_log (js "Attempting to open serial port " ++ SERIAL_PORT cfg
               ++ js " at " ++ numberToString (SERIAL_BAUDRATE cfg)
               ++ js "...") ;;
  emit (NewSerialPort (SERIAL_PORT cfg) (SERIAL_BAUDRATE cfg)) ;;
  modify (fun s =>
    set_serial (Some (List.length (ports s))) (set_ports (ports s ++ [0]) s)) ;;
  emit SerialOpen.

(** [function stopPolling()] *)
Definition stopPolling : M unit :=
  s <- get ;;
  match pollTimer s with
  | Some t => clearInterval t ;; modify (set_pollTimer None)
  | None => ret tt
  end.

(** The callback of [setInterval] in [startPolling]. *)
Definition pollTick : M unit :=
  s <- get ;;
  when (serialConnected s) (emit (SerialWrite (js "=R" ++ [CR; LF]))).

(** The callback given to [serial.write]. *)
Definition writeCallback (err : option jsstring) : M unit :=
  match err with
  | Some message => console_error (js "Error writing to serial: " ++ message)
  | None => ret tt
  end.

(** [function startPolling()] *)
Definition startPolling : M unit :=
  s <- get ;;
  match pollTimer s with
  | Some t => clearInterval t
  | None => ret tt
  end ;;
  t <- setInterval (POLL_INTERVAL cfg) ;;
  modify (set_pollTimer (Some t)).

(** [function startWebSocketServer()], up to the registration of the
    connection listener, which is [onConnection], for a port that can
    be listened on.  [new WebSocket.Server] raises for a port above
    65535, and the process ends in the callback of the open. *)
Definition startWebSocketServer : M unit :=
  s <- get ;;
  match wss s with
  | Some _ => ret tt
  | None =>
      emit (NewWebSocketServer (WS_PORT cfg)) ;;
      modify (set_wss (Some {| port := WS_PORT cfg; clients := [] |})) ;;
      console_log (js "WebSocket Server started on port "
                   ++ numberToString (WS_PORT cfg))
  end.

(** The [error] listener of [setupSerialHandlers]. *)
Definition onSerialError (message : jsstring) : M unit :=
  console_error (js "Serial port error: " ++ message) ;;
  modify (set_serialConnected false) ;;
  stopPolling ;;
  broadcastToClients (js "[STATUS] Serial error: " ++ message) None ;;
  console_log (js "Reconnecting to serial port in 5 seconds...") ;;
  setTimeout InitSerialPort 5000.

(** The [close] listener of [setupSerialHandlers]. *)
Definition onSerialClose : M unit :=
  console_warn
    (js "Serial port closed. Retrying connection in 5 seconds...") ;;
  modify (set_serialConnected false) ;;
  stopPolling ;;
  broadcastToClients (js "[STATUS] Serial disconnected") None ;;
  setTimeout InitSerialPort 5000.

(** The [data] listener of [setupSerialHandlers]; [data] is the text
    [data.toString()] of the chunk.  [split] never returns an empty
    array, so [pop] always returns a string. *)
Definition onSerialData (data : jsstring) : M unit :=
  debugLog (js "RAW COM DATA: " ++ data) ;;
  modify (fun s => set_serialBuffer (serialBuffer s ++ data) s) ;;
  modify (fun s => set_serialBuffer (replaceCR (serialBuffer s)) s) ;;
  s <- get ;;
  let (last, lines) := pop (split LF (serialBuffer s)) in
  match last with
  | Some rest => modify (set_serialBuffer rest)
  | None => ret tt
  end ;;
  forEach lines (fun line =>
    let line := trim line in
    when (0 <? List.length line)
      (debugLog (js "COM->WS | " ++ line) ;;
       broadcastToClients line None)) ;;
  s <- get ;;
  when (1024 <? List.length (serialBuffer s))
    (console_warn (js "Serial buffer overflow, clearing incomplete data") ;;
     modify (set_serialBuffer [])).

(** [function setupSerialHandlers()]: the three listeners above are
    attached, once more, to the port object that the global [serial]
    holds when the function runs, which need not be the port whose open
    has just succeeded.  ([serial] is assigned by [initSerialPort]
    before any callback can run, so it is never [undefined] here.) *)
Definition setupSerialHandlers : M unit :=
  s <- get ;;
  match serial s with
  | Some p => modify (fun s => set_ports (attach p (ports s)) s)
  | None => ret tt
  end.

(** The callback given to [serial.open] in [initSerialPort]. *)
Definition openCallback (err : option jsstring) : M unit :=
  match err with
  | Some message =>
      console_error (js "Failed to open " ++ SERIAL_PORT cfg ++ js ": "
                     ++ message) ;;
      console_log (js "Retrying in 5 seconds..." ++ [LF]) ;;
      setTimeout InitSerialPort 5000
  | None =>
      modify (set_serialConnected true) ;;
      console_log (js "Serial port " ++ SERIAL_PORT cfg
                   ++ js " opened successfully at "
                   ++ numberToString (SERIAL_BAUDRATE cfg)
                   ++ js " 8N1" ++ [LF]) ;;
      startWebSocketServer ;;
      broadcastToClients (js "[STATUS] Serial connected") None ;;
      setupSerialHandlers ;;
      startPolling
  end.

(** [let ip = req.socket.remoteAddress;
     if (ip && ip.startsWith('::ffff:')) ip = ip.substring(7);] *)
Definition remoteIp (remoteAddress : option jsstring) : option jsstring :=
  match remoteAddress with
  | Some a =>
      if negb (List.length a =? 0) && startsWith a (js "::ffff:")
      then Some (substring a 7)
      else Some a
  | None => None
  end.

(** A possibly undefined string inside a template literal. *)
Definition show (v : option jsstring) : jsstring :=
  match v with
  | Some a => a
  | None => js "undefined"
  end.

(** [token !== AUTH_TOKEN], for [token] a string or [null]. *)
Definition strictNotEqual (tok : option jsstring) (v : ConfigValue) : bool :=
  match tok, v with
  | None, CfgNull => false
  | Some t, CfgString a => negb (JS.eqb t a)
  | _, _ => true
  end.

(** The [message] listener of an accepted socket. *)
Definition onMessage (message : jsstring) : M unit :=
  s <- get ;;
  if negb (serialConnected s) then
    console_warn (js "Serial not connected " ++ [226; 8364; 8221]%N
                  ++ js " WS message ignored")
  else
    emit (SerialWrite (message ++ [CR; LF])).

(** The [close] listener of an accepted socket. *)
Definition onWsClose (client : Client) : M unit :=
  debugLog (js "WebSocket client from " ++ show (ip client)
            ++ js " disconnected").

(** [ws.on('message', ...); ws.on('close', ...)]: both listeners are
    registered, and they close over [ip]. *)
Definition listen (ip : option jsstring) (x : Client) : Client :=
  set_listening true (set_ip ip x).

(** The [connection] listener of [startWebSocketServer], for the socket
    [c] of a request whose target [new URL] can parse; [tok] is
    [urlObj.searchParams.get('token')].  For a target that it cannot
    parse [new URL] raises, after the first line of the log, and the
    process ends. *)
Definition onConnection (c : nat) (remoteAddress tok : option jsstring)
    : M unit :=
  let ip := remoteIp remoteAddress in
  console_log (js "WebSocket client connected from IP: " ++ show ip) ;;
  if strictNotEqual tok (AUTH_TOKEN cfg) then
    console_log (js "Invalid token from IP: " ++ show ip) ;;
    wsClose c
  else
    s <- get ;;
    when (serialConnected s) (emit (SerialWrite (js "=R" ++ [CR; LF]))) ;;
    modify (fun s =>
      set_clients (update_client c (listen ip) (the_clients s)) s).

(* ----------------------------------------------------------------- *)
(** *** The event loop *)

(** A socket as the ws library makes it for an upgrade request: open,
    with no listeners yet. *)
Definition newClient (s : State) (tok : option jsstring) : Client :=
  {| cid := nextClient s; readyState := OPEN; token := tok;
     ip := None; listening := false |}.

(** The ws library adds the new socket to [wss.clients] before it emits
    [connection]. *)
Definition accept (tok : option jsstring) : M nat :=
  fun s =>
    (nextClient s,
     set_nextClient (S (nextClient s))
       (set_clients (the_clients s ++ [newClient s tok]) s),
     []).

(** The ws library removes a socket from [wss.clients] when it emits
    [close]. *)
Definition forget (c : nat) : M unit :=
  modify (fun s =>
    set_clients (filter (fun x => negb (cid x =? c)) (the_clients s)) s).

Definition isLive (id : nat) (s : State) : bool :=
  existsb (fun i => timer i =? id) (intervals s).

Definition step (e : Event) : M unit :=
  match e with
  | EvOpenCallback err => openCallback err
  | EvSerialError message => onSerialError message
  | EvSerialClose => onSerialClose
  | EvSerialData data => onSerialData data
  | EvWriteCallback err => writeCallback err
  | EvTimeout =>
      s <- get ;;
      match timeouts s with
      | [] => ret tt
      | t :: rest =>
          modify (set_timeouts rest) ;;
          match callback t with
          | InitSerialPort => initSerialPort
          end
      end
  | EvInterval id =>
      s <- get ;;
      when (isLive id s) pollTick
  | EvWsConnection remoteAddress tok =>
      s <- get ;;
      match wss s with
      | None => ret tt
      | Some _ => c <- accept tok ;; onConnection c remoteAddress tok
      end
  | EvWsMessage c message =>
      s <- get ;;
      match find_client c (the_clients s) with
      | Some x => when (listening x) (onMessage message)
      | None => ret tt
      end
  | EvWsPeerClosing c =>
      modify (fun s =>
        set_clients (update_client c closing (the_clients s)) s)
  | EvWsClose c =>
      s <- get ;;
      match find_client c (the_clients s) with
      | Some x => forget c ;; when (listening x) (onWsClose x)
      | None => ret tt
      end
  | EvWsTransportDown c => modify (fun s => set_down (c :: down s) s)
  end.

Definition run (evs : list Event) : M unit := forEach evs step.

(** The globals as declared. *)
Definition globals : State :=
  {| wss := None; serialConnected := false; pollTimer := None;
     serialBuffer := []; timeouts := []; intervals := [];
     nextTimer := 0; nextClient := 0; serial := None; ports := [];
     down := [] |}.

(** The state when the script has run to its end ([initSerialPort();])
    and the event loop takes over. *)
Definition boot : State := state_of initSerialPort globals.

(** The state after the events [evs]. *)
Definition after (evs : list Event) : State := state_of (run evs) boot.

(** The whole life of the process: the script, then the events. *)
Definition process (evs : list Event) : M unit := initSerialPort ;; run evs.

(* ----------------------------------------------------------------- *)
(** *** The events of the serial port objects *)

(** What a [SerialPort] object emits; [data] carries the chunk, a
    [Buffer]. *)
Inductive PortEvent :=
| PortError (message : jsstring)
| PortClose
| PortData (data : list Byte.byte).

(** One run of the listener that [setupSerialHandlers] attaches for the
    event. *)
Definition listenerRun (ev : PortEvent) : Event :=
  match ev with
  | PortError message => EvSerialError message
  | PortClose => EvSerialClose
  | PortData data => EvSerialData (toString data)
  end.

Fixpoint times (n : nat) (m : M unit) : M unit :=
  match n with
  | 0 => ret tt
  | S n' => m ;; times n' m
  end.

(** [emit] of Node's [EventEmitter] on the port object [p]: the
    listeners attached for the event when it is emitted run one after
    the other, one for each time [setupSerialHandlers] ran on [p]. *)
Definition portEmit (p : nat) (ev : PortEvent) : M unit :=
  s <- get ;;
  times (listenersOf p s) (step (listenerRun ev)).

(** What happens to the process: the port object [p] emits an event, or
    the loop runs another callback, which returns. *)
Inductive Happening :=
| Emit (p : nat) (ev : PortEvent)
| Loop (e : Event).

Definition happen (h : Happening) : M unit :=
  match h with
  | Emit p ev => portEmit p ev
  | Loop e => step e
  end.

(** An [error] event of an emitter without a listener for it is thrown
    instead; the script catches nothing, and the process ends. *)
Definition unhandled (h : Happening) (s : State) : bool :=
  match h with
  | Emit p (PortError _) => listenersOf p s =? 0
  | _ => false
  end.

(** The process as long as it lives. *)
Fixpoint live (hs : list Happening) : M unit :=
  match hs with
  | [] => ret tt
  | h :: hs' =>
      s <- get ;;
      if unhandled h s then ret tt else happen h ;; live hs'
  end.


(** The listener and callback runs that make up a happening, and a
    sequence of them. *)
Definition runsOf (h : Happening) (s : State) : list Event :=
  match h with
  | Emit p ev => repeat (listenerRun ev) (listenersOf p s)
  | Loop e => [e]
  end.


End Server.

(* ================================================================= *)
(** ** Observations *)

(** The messages sent to the socket [c], in order. *)
Definition received (c : nat) (o : list Effect) : list jsstring :=
  flat_map (fun e =>
    match e with
    | WsSend c' m => if c' =? c then [m] else []
    | _ => []
    end) o.

(** Whether the transport takes the frame of a send made in the state
    [s]: the value [send] returns. *)
Definition taken (s : State) (e : Effect) : bool :=
  match e with
  | WsSend c _ => negb (isDown c s)
  | _ => true
  end.

(** The messages that reach the peer of the socket [c], of the sends
    made in the state [s]: those its transport took. *)
Definition delivered (s : State) (c : nat) (o : list Effect) : list jsstring :=
  received c (filter (taken s) o).

(** What was written to the serial link, in order. *)
Definition serialWrites (o : list Effect) : list jsstring :=
  flat_map (fun e =>
    match e with
    | SerialWrite d => [d]
    | _ => []
    end) o.

(** The client servers that were created. *)
Definition serversCreated (o : list Effect) : list N :=
  flat_map (fun e =>
    match e with
    | NewWebSocketServer p => [p]
    | _ => []
    end) o.

(** The port objects that were made, with path and baud rate, and the
    opens that were started. *)
Definition portsMade (o : list Effect) : list (jsstring * N) :=
  flat_map (fun e =>
    match e with
    | NewSerialPort path baud => [(path, baud)]
    | _ => []
    end) o.

Definition opensStarted (o : list Effect) : nat :=
  List.length (filter (fun e =>
    match e with
    | SerialOpen => true
    | _ => false
    end) o).

(** The warnings that were reported. *)
Definition warnings (o : list Effect) : list jsstring :=
  flat_map (fun e =>
    match e with
    | Console WARN t => [t]
    | _ => []
    end) o.

(** The socket [c] is in [wss.clients], once, and is open. *)
Definition isOpenClient (c : nat) (s : State) : bool :=
  match filter (fun x => cid x =? c) (the_clients s) with
  | [x] => isOpen (readyState x)
  | _ => false
  end.

(** The socket presented the configured token when it connected. *)
Definition authenticated (cfg : Config) (x : Client) : bool :=
  negb (strictNotEqual (token x) (AUTH_TOKEN cfg)).

(** Who [broadcastToClients(message, sender)] is meant to reach. *)
Definition eligible (cfg : Config) (sender : option nat) (x : Client) : bool :=
  isOpen (readyState x) && authenticated cfg x && notSender x sender.

(** A retry of the serial open, five seconds away. *)
Definition retry : Timeout := {| callback := InitSerialPort; delay := 5000 |}.

(** The successful completion of [serial.open]. *)
Definition isReconnect (e : Event) : bool :=
  match e with
  | EvOpenCallback None => true
  | _ => false
  end.

(* ----------------------------------------------------------------- *)
(** *** The framer *)

(** The data listener on a sequence of chunks. *)
Definition feed (cfg : Config) (chunks : list jsstring) : M unit :=
  forEach chunks (onSerialData cfg).

(** The same on the chunks as they come from the port: each [Buffer] is
    decoded on its own. *)
Definition feedBytes (cfg : Config) (chunks : list (list Byte.byte))
  : M unit :=
  forEach chunks (fun data => onSerialData cfg (toString data)).

(** The segments that the data listener takes for complete lines and the
    one it retains, for the text [serialBuffer + data] it holds. *)
Definition complete_lines (text : jsstring) : list jsstring :=
  snd (pop (split LF (replaceCR text))).

Definition residual (text : jsstring) : jsstring :=
  match fst (pop (split LF (replaceCR text))) with
  | Some rest => rest
  | None => []
  end.

(** The lines it broadcasts. *)
Definition frames_of (lines : list jsstring) : list jsstring :=
  filter (fun l => 0 <? List.length l) (map trim lines).

(** No invocation of the data listener on [chunks] retains more than
    1024 code units. *)
Fixpoint within_cap (buffer : jsstring) (chunks : list jsstring) : bool :=
  match chunks with
  | [] => true
  | data :: chunks' =>
      (List.length (residual (buffer ++ data)) <=? 1024)
      && within_cap (residual (buffer ++ data)) chunks'
  end.

(** The frames of a text as the specification words them: each maximal
    run terminated by a line feed, carriage returns removed, trimmed,
    empty results excluded.  [cur] is the run read so far, last code unit
    first; what follows the last line feed is not a frame. *)
Fixpoint spec_scan (cur : jsstring) (text : jsstring) : list jsstring :=
  match text with
  | [] => []
  | c :: text' =>
      if (c =? LF)%N then
        (if 0 <? List.length (trim (rev cur)) then [trim (rev cur)] else [])
        ++ spec_scan [] text'
      else if (c =? CR)%N then spec_scan cur text'
      else spec_scan (c :: cur) text'
  end.

Definition spec_frames (text : jsstring) : list jsstring :=
  spec_scan [] text.

(* ----------------------------------------------------------------- *)
(** *** A configuration and some states to compute with *)

Definition example_config : Config :=
  {| DEBUG := false; AUTH_TOKEN := CfgString (js "secret");
     WS_PORT := 8080; SERIAL_PORT := js "COM5";
     SERIAL_BAUDRATE := 115200; POLL_INTERVAL := 2000 |}.

(** The link is open and one client has connected with the token. *)
Definition one_client : State :=
  after example_config
    [EvOpenCallback None;
     EvWsConnection (Some (js "::ffff:192.168.1.20")) (Some (js "secret"))].

(** The link is open and two clients have connected with the token. *)
Definition two_clients : State :=
  after example_config
    [EvOpenCallback None;
     EvWsConnection (Some (js "::ffff:192.168.1.20")) (Some (js "secret"));
     EvWsConnection (Some (js "192.168.1.21")) (Some (js "secret"))].

(** The state invariant of the event loop: sockets have distinct names
    below the counter, an open socket presented the configured token, a
    socket with listeners did too, and the only live interval is the one
    [pollTimer] holds. *)
Record Inv (cfg : Config) (s : State) : Prop := {
  inv_nodup : NoDup (map cid (the_clients s));
  inv_fresh : Forall (fun x => cid x < nextClient s) (the_clients s);
  inv_open : Forall (fun x => isOpen (readyState x) = true ->
                              authenticated cfg x = true) (the_clients s);
  inv_listening : Forall (fun x => listening x = true ->
                                   authenticated cfg x = true) (the_clients s);
  inv_poll : map timer (intervals s) =
             match pollTimer s with Some t => [t] | None => [] end
}.

(* ----------------------------------------------------------------- *)
(** *** The sockets after an event, in closed form *)

Definition step_clients (cfg : Config) (e : Event) (s : State) : list Client :=
  match e with
  | EvWsConnection remoteAddress tok =>
      match wss s with
      | None => []
      | Some _ =>
          update_client (nextClient s)
            (if strictNotEqual tok (AUTH_TOKEN cfg) then closing
             else listen (remoteIp remoteAddress))
            (the_clients s ++ [newClient s tok])
      end
  | EvWsPeerClosing c => update_client c closing (the_clients s)
  | EvWsClose c => filter (fun x => negb (cid x =? c)) (the_clients s)
  | _ => the_clients s
  end.

Definition step_nextClient (e : Event) (s : State) : nat :=
  match e, wss s with
  | EvWsConnection _ _, Some _ => S (nextClient s)
  | _, _ => nextClient s
  end.

(** The socket [c] was turned away: it is below the counter, not open,
    and has no listeners. *)
Definition Rejected (c : nat) (s : State) : Prop :=
  c < nextClient s /\
  Forall (fun x => cid x = c ->
                   isOpen (readyState x) = false /\ listening x = false)
    (the_clients s).

(* ----------------------------------------------------------------- *)
(** *** Output of the helpers, in closed form *)

Definition debug_out (cfg : Config) (msg : jsstring) : list Effect :=
  if DEBUG cfg then [Console LOG msg] else [].

Definition broadcast_out (s : State) (message : jsstring)
    (sender : option nat) : list Effect :=
  map (fun x => WsSend (cid x) message)
    (filter (fun x => notSender x sender && isOpen (readyState x))
       (the_clients s)).

Definition frame_out (cfg : Config) (s : State) (line : jsstring)
    : list Effect :=
  if 0 <? List.length (trim line)
  then debug_out cfg (js "COM->WS | " ++ trim line)
       ++ broadcast_out s (trim line) None
  else [].

Definition overflow_out (r : jsstring) : list Effect :=
  if 1024 <? List.length r
  then [Console WARN (js "Serial buffer overflow, clearing incomplete data")]
  else [].

(** What the data listener keeps of a residual. *)
Definition capped (r : jsstring) : jsstring :=
  if 1024 <? List.length r then [] else r.

(* ----------------------------------------------------------------- *)
(** *** The output of an event, in closed form *)

Definition poll_out (s : State) : list Effect :=
  if serialConnected s then [SerialWrite (js "=R" ++ [CR; LF])] else [].

Definition step_out (cfg : Config) (e : Event) (s : State) : list Effect :=
  match e with
  | EvOpenCallback (Some message) =>
      [Console ERROR (js "Failed to open " ++ SERIAL_PORT cfg ++ js ": "
                      ++ message);
       Console LOG (js "Retrying in 5 seconds..." ++ [LF])]
  | EvOpenCallback None =>
      Console LOG (js "Serial port " ++ SERIAL_PORT cfg
                   ++ js " opened successfully at "
                   ++ numberToString (SERIAL_BAUDRATE cfg)
                   ++ js " 8N1" ++ [LF])
      :: match wss s with
         | Some _ => []
         | None =>
             [NewWebSocketServer (WS_PORT cfg);
              Console LOG (js "WebSocket Server started on port "
                           ++ numberToString (WS_PORT cfg))]
         end
      ++ broadcast_out s (js "[STATUS] Serial connected") None
  | EvSerialError message =>
      Console ERROR (js "Serial port error: " ++ message)
      :: broadcast_out s (js "[STATUS] Serial error: " ++ message) None
      ++ [Console LOG (js "Reconnecting to serial port in 5 seconds...")]
  | EvSerialClose =>
      Console WARN
        (js "Serial port closed. Retrying connection in 5 seconds...")
      :: broadcast_out s (js "[STATUS] Serial disconnected") None
  | EvSerialData data =>
      debug_out cfg (js "RAW COM DATA: " ++ data)
      ++ flat_map (frame_out cfg s) (complete_lines (serialBuffer s ++ data))
      ++ overflow_out (residual (serialBuffer s ++ data))
  | EvWriteCallback err =>
      match err with
      | Some message =>
          [Console ERROR (js "Error writing to serial: " ++ message)]
      | None => []
      end
  | EvTimeout =>
      match timeouts s with
      | [] => []
      | _ :: _ =>
          [Console LOG (js "Attempting to open serial port "
                        ++ SERIAL_PORT cfg ++ js " at "
                        ++ numberToString (SERIAL_BAUDRATE cfg) ++ js "...");
           NewSerialPort (SERIAL_PORT cfg) (SERIAL_BAUDRATE cfg);
           SerialOpen]
      end
  | EvInterval id => if isLive id s then poll_out s else []
  | EvWsConnection remoteAddress tok =>
      match wss s with
      | None => []
      | Some _ =>
          Console LOG (js "WebSocket client connected from IP: "
                       ++ show (remoteIp remoteAddress))
          :: if strictNotEqual tok (AUTH_TOKEN cfg)
             then [Console LOG (js "Invalid token from IP: "
                                ++ show (remoteIp remoteAddress));
                   WsClose (nextClient s)]
             else poll_out s
      end
  | EvWsMessage c message =>
      match find_client c (the_clients s) with
      | Some x =>
          if listening x
          then if serialConnected s
               then [SerialWrite (message ++ [CR; LF])]
               else [Console WARN (js "Serial not connected "
                                   ++ [226; 8364; 8221]%N
                                   ++ js " WS message ignored")]
          else []
      | None => []
      end
  | EvWsPeerClosing _ | EvWsTransportDown _ => []
  | EvWsClose c =>
      match find_client c (the_clients s) with
      | Some x =>
          if listening x
          then debug_out cfg (js "WebSocket client from " ++ show (ip x)
                              ++ js " disconnected")
          else []
      | None => []
      end
  end.

(** The link state after an event. *)
Definition step_serialConnected (e : Event) (s : State) : bool :=
  match e with
  | EvOpenCallback None => true
  | EvSerialError _ | EvSerialClose => false
  | _ => serialConnected s
  end.

(* ----------------------------------------------------------------- *)
(** *** Link failures *)

Inductive Failure :=
| OpenFailure (message : jsstring)
| RuntimeError (message : jsstring)
| CloseEvent.

Definition failure_event (f : Failure) : Event :=
  match f with
  | OpenFailure message => EvOpenCallback (Some message)
  | RuntimeError message => EvSerialError message
  | CloseEvent => EvSerialClose
  end.

(** A link failure as it happens to the process: the callback of a
    failed open, or an [error] or [close] event of the port object
    [p]. *)
Definition failure_happening (p : nat) (f : Failure) : Happening :=
  match f with
  | OpenFailure message => Loop (EvOpenCallback (Some message))
  | RuntimeError message => Emit p (PortError message)
  | CloseEvent => Emit p PortClose
  end.

(** The retries that a failure schedules: one for a failed open, one
    for each listener that the event of a port runs. *)
Definition retriesOf (p : nat) (f : Failure) (s : State) : nat :=
  match f with
  | OpenFailure _ => 1
  | RuntimeError _ | CloseEvent => listenersOf p s
  end.

Fixpoint retriesOfAll (fs : list (nat * Failure)) (s : State) : nat :=
  match fs with
  | [] => 0
  | (p, f) :: fs' =>
      if unhandled (failure_happening p f) s then 0
      else retriesOf p f s + retriesOfAll fs' s
  end.


(* ----------------------------------------------------------------- *)
(** *** The state after an event, in closed form *)

Definition step_state (cfg : Config) (e : Event) (s : State) : State :=
  match e with
  | EvOpenCallback (Some _) => set_timeouts (timeouts s ++ [retry]) s
  | EvOpenCallback None =>
      set_ports (attachedPorts s)
        (state_of (startPolling cfg)
           (state_of (startWebSocketServer cfg) (set_serialConnected true s)))
  | EvSerialError _ | EvSerialClose =>
      set_timeouts (timeouts s ++ [retry])
        (state_of stopPolling (set_serialConnected false s))
  | EvSerialData data =>
      set_serialBuffer (capped (residual (serialBuffer s ++ data))) s
  | EvWriteCallback _ | EvInterval _ | EvWsMessage _ _ => s
  | EvWsTransportDown c => set_down (c :: down s) s
  | EvTimeout =>
      match timeouts s with
      | [] => s
      | _ :: rest =>
          set_serial (Some (List.length (ports s)))
            (set_ports (ports s ++ [0]) (set_timeouts rest s))
      end
  | EvWsConnection remoteAddress tok =>
      match wss s with
      | None => s
      | Some _ =>
          set_clients
            (update_client (nextClient s)
               (if strictNotEqual tok (AUTH_TOKEN cfg) then closing
                else listen (remoteIp remoteAddress))
               (the_clients s ++ [newClient s tok]))
            (set_nextClient (S (nextClient s))
               (set_clients (the_clients s ++ [newClient s tok]) s))
      end
  | EvWsPeerClosing c => set_clients (update_client c closing (the_clients s)) s
  | EvWsClose c =>
      match find_client c (the_clients s) with
      | Some _ =>
          set_clients (filter (fun x => negb (cid x =? c)) (the_clients s)) s
      | None => s
      end
  end.

(* ----------------------------------------------------------------- *)
(** *** Further invariants and shapes *)

(** The poll timer and the link go together: the only live interval is
    the one [pollTimer] holds, it has the configured period, and it is
    set exactly while the link is connected. *)
Definition PollLink (cfg : Config) (s : State) : Prop :=
  intervals s =
    match pollTimer s with
    | Some t => [{| timer := t; period := POLL_INTERVAL cfg |}]
    | None => []
    end
  /\ serialConnected s =
     match pollTimer s with Some _ => true | None => false end.

(** The name [c] was given out and no socket of that name is open. *)
Definition NotOpen (c : nat) (s : State) : Prop :=
  c < nextClient s /\
  Forall (fun x => cid x = c -> isOpen (readyState x) = false)
    (the_clients s).

(** No socket is open or has listeners. *)
Definition NobodyIn (s : State) : Prop :=
  Forall (fun x => isOpen (readyState x) = false /\ listening x = false)
    (the_clients s).

(** A relayed line: not empty, free of CR and LF, with no white space at
    either end. *)
Definition Frame (m : jsstring) : Prop :=
  m <> []
  /\ Forall (fun ch => ch <> CR /\ ch <> LF) m
  /\ isWhiteSpace (hd 32%N m) = false
  /\ isWhiteSpace (last m 32%N) = false.

(** What the script ever sends to a client. *)
Definition ClientLine (m : jsstring) : Prop :=
  m = js "[STATUS] Serial connected"
  \/ m = js "[STATUS] Serial disconnected"
  \/ (exists text, m = js "[STATUS] Serial error: " ++ text)
  \/ Frame m.

(** The messages sent to any socket, in order. *)
Definition sent (o : list Effect) : list jsstring :=
  flat_map (fun e =>
    match e with
    | WsSend _ m => [m]
    | _ => []
    end) o.

(** What was written to the console, in order. *)
Definition consoleLines (o : list Effect) : list (Level * jsstring) :=
  flat_map (fun e =>
    match e with
    | Console lvl t => [(lvl, t)]
    | _ => []
    end) o.

(** A configuration without a usable token. *)
Definition unset_config : Config :=
  {| DEBUG := false; AUTH_TOKEN := CfgUndefined;
     WS_PORT := 8080; SERIAL_PORT := js "COM5";
     SERIAL_BAUDRATE := 115200; POLL_INTERVAL := 2000 |}.

(** A chunk of serial data arrives. *)
Definition isData (e : Event) : bool :=
  match e with
  | EvSerialData _ => true
  | _ => false
  end.

(** What [initSerialPort] does to the outside world. *)
Definition open_attempt (cfg : Config) : list Effect :=
  [Console LOG (js "Attempting to open serial port " ++ SERIAL_PORT cfg
                ++ js " at " ++ numberToString (SERIAL_BAUDRATE cfg)
                ++ js "...");
   NewSerialPort (SERIAL_PORT cfg) (SERIAL_BAUDRATE cfg);
   SerialOpen].

(* ----------------------------------------------------------------- *)
(** *** Overlapping retries *)



(* ================================================================= *)
(** ** Laws of the handler monad *)

Section MonadLaws.

Variables A B : Type.

Lemma state_bind (m : M A) (k : A -> M B) s :
  state_of (bind m k) s = state_of (k (fst (fst (m s)))) (snd (fst (m s))).
Proof.
  unfold state_of, exec, bind.
  destruct (m s) as [[a s1] o1]; simpl.
  destruct (k a s1) as [[b s2] o2]; reflexivity.
Qed.

Lemma output_bind (m : M A) (k : A -> M B) s :
  output_of (bind m k) s =
  output_of m s ++ output_of (k (fst (fst (m s)))) (snd (fst (m s))).
Proof.
  unfold output_of, exec, bind.
  destruct (m s) as [[a s1] o1]; simpl.
  destruct (k a s1) as [[b s2] o2]; reflexivity.
Qed.

End MonadLaws.

Lemma state_seq (B : Type) (m : M unit) (k : M B) s :
  state_of (m ;; k) s = state_of k (state_of m s).
Proof.
  unfold state_of, exec, bind.
  destruct (m s) as [[a s1] o1]; simpl.
  destruct (k s1) as [[b s2] o2]; reflexivity.
Qed.

Lemma output_seq (B : Type) (m : M unit) (k : M B) s :
  output_of (m ;; k) s = output_of m s ++ output_of k (state_of m s).
Proof.
  unfold output_of, state_of, exec, bind.
  destruct (m s) as [[a s1] o1]; simpl.
  destruct (k s1) as [[b s2] o2]; reflexivity.
Qed.

Lemma state_get (B : Type) (k : State -> M B) s :
  state_of (x <- get ;; k x) s = state_of (k s) s.
Proof. rewrite state_bind. reflexivity. Qed.

Lemma output_get (B : Type) (k : State -> M B) s :
  output_of (x <- get ;; k x) s = output_of (k s) s.
Proof. rewrite output_bind. reflexivity. Qed.

Lemma state_ret s : state_of (ret tt) s = s.
Proof. reflexivity. Qed.

Lemma output_ret s : output_of (ret tt) s = [].
Proof. reflexivity. Qed.

Lemma state_modify f s : state_of (modify f) s = f s.
Proof. reflexivity. Qed.

Lemma output_modify f s : output_of (modify f) s = [].
Proof. reflexivity. Qed.

Lemma state_emit e s : state_of (emit e) s = s.
Proof. reflexivity. Qed.

Lemma output_emit e s : output_of (emit e) s = [e].
Proof. reflexivity. Qed.

Lemma state_when c m s :
  state_of (when c m) s = if c then state_of m s else s.
Proof. destruct c; reflexivity. Qed.

Lemma output_when c m s :
  output_of (when c m) s = if c then output_of m s else [].
Proof. destruct c; reflexivity. Qed.

Lemma state_forEach_cons (A : Type) (x : A) l f s :
  state_of (forEach (x :: l) f) s = state_of (forEach l f) (state_of (f x) s).
Proof. simpl. apply state_seq. Qed.

Lemma output_forEach_cons (A : Type) (x : A) l f s :
  output_of (forEach (x :: l) f) s =
  output_of (f x) s ++ output_of (forEach l f) (state_of (f x) s).
Proof. simpl. apply output_seq. Qed.

Lemma state_forEach_app (A : Type) (l1 l2 : list A) f s :
  state_of (forEach (l1 ++ l2) f) s =
  state_of (forEach l2 f) (state_of (forEach l1 f) s).
Proof.
  revert s; induction l1 as [|x l1 IH]; intros s.
  - reflexivity.
  - rewrite <- app_comm_cons, !state_forEach_cons. apply IH.
Qed.


(** A loop whose body leaves the state alone. *)
Lemma forEach_pure (A : Type) (l : list A) (f : A -> M unit)
    (g : A -> list Effect) s :
  (forall x, state_of (f x) s = s) ->
  (forall x, output_of (f x) s = g x) ->
  state_of (forEach l f) s = s /\
  output_of (forEach l f) s = flat_map g l.
Proof.
  intros Hs Ho. induction l as [|x l [IHs IHo]].
  - split; reflexivity.
  - rewrite state_forEach_cons, output_forEach_cons, Hs, Ho.
    split; [exact IHs | simpl; now rewrite IHo].
Qed.

Create Rewrite HintDb js.
#[global] Hint Rewrite state_seq output_seq state_get output_get
  state_ret output_ret state_modify output_modify state_emit output_emit
  state_when output_when : js.

Ltac js_simpl := autorewrite with js.

(* ================================================================= *)
(** ** Observations of composed output *)

Lemma received_app c o1 o2 :
  received c (o1 ++ o2) = received c o1 ++ received c o2.
Proof. apply flat_map_app. Qed.

Lemma serialWrites_app o1 o2 :
  serialWrites (o1 ++ o2) = serialWrites o1 ++ serialWrites o2.
Proof. apply flat_map_app. Qed.

Lemma serversCreated_app o1 o2 :
  serversCreated (o1 ++ o2) = serversCreated o1 ++ serversCreated o2.
Proof. apply flat_map_app. Qed.

Lemma warnings_app o1 o2 :
  warnings (o1 ++ o2) = warnings o1 ++ warnings o2.
Proof. apply flat_map_app. Qed.

(* ================================================================= *)
(** ** Splitting and popping *)

Lemma pop_snoc (A : Type) (l : list A) (x : A) :
  pop (l ++ [x]) = (Some x, l).
Proof.
  induction l as [|y l IH].
  - reflexivity.
  - simpl app. simpl pop. rewrite IH.
    destruct l; reflexivity.
Qed.

Lemma split_nonempty sep s : split sep s <> [].
Proof.
  destruct s as [|c s]; simpl.
  - discriminate.
  - destruct (c =? sep)%N; [discriminate|].
    destruct (split sep s); discriminate.
Qed.

Lemma split_snoc sep s : exists ls r, split sep s = ls ++ [r].
Proof.
  destruct (exists_last (split_nonempty sep s)) as [ls [r E]].
  now exists ls, r.
Qed.

Lemma split_app sep a : forall b ls r,
  split sep a = ls ++ [r] ->
  split sep (a ++ b) = ls ++ split sep (r ++ b).
Proof.
  induction a as [|c a IH]; intros b ls r E.
  - simpl in E. destruct ls as [|l ls].
    + injection E as <-. reflexivity.
    + destruct ls; discriminate.
  - simpl in E. simpl app. simpl split.
    destruct (c =? sep)%N eqn:Ec.
    + destruct ls as [|l ls].
      * injection E as _ E. now destruct (split_nonempty sep a).
      * injection E as <- E. simpl. f_equal. now apply IH.
    + destruct (split_snoc sep a) as [ls' [r' E']].
      rewrite (IH b ls' r' E'). rewrite E' in E.
      destruct ls' as [|l' ls']; simpl in E |- *.
      * destruct ls as [|l ls].
        -- injection E as <-. simpl. now rewrite Ec.
        -- destruct ls; discriminate.
      * destruct ls as [|l ls].
        -- destruct ls'; discriminate.
        -- injection E as <- E. apply app_inj_tail in E as [<- <-].
           reflexivity.
Qed.

Lemma split_free sep u :
  Forall (fun c => c <> sep) u -> split sep u = [u].
Proof.
  induction 1 as [|c u Hc _ IH]; simpl.
  - reflexivity.
  - apply N.eqb_neq in Hc. now rewrite Hc, IH.
Qed.

Lemma split_free_sep sep u t :
  Forall (fun c => c <> sep) u ->
  split sep (u ++ sep :: t) = u :: split sep t.
Proof.
  induction 1 as [|c u Hc _ IH]; simpl.
  - now rewrite N.eqb_refl.
  - apply N.eqb_neq in Hc. now rewrite Hc, IH.
Qed.

Lemma split_Forall (P : N -> Prop) sep t :
  Forall P t -> Forall (Forall P) (split sep t).
Proof.
  induction 1 as [|c t Hc _ IH]; simpl.
  - repeat constructor.
  - destruct (c =? sep)%N.
    + constructor; [constructor | exact IH].
    + destruct (split sep t) as [|seg segs].
      * repeat constructor; assumption.
      * inversion IH; subst. constructor; [now constructor | assumption].
Qed.

Lemma replaceCR_app a b : replaceCR (a ++ b) = replaceCR a ++ replaceCR b.
Proof. apply filter_app. Qed.

Lemma replaceCR_clean s : Forall (fun c => c <> CR) (replaceCR s).
Proof.
  apply Forall_forall. intros c Hc.
  apply filter_In in Hc as [_ Hc].
  apply negb_true_iff in Hc. now apply N.eqb_neq.
Qed.

Lemma replaceCR_id s : Forall (fun c => c <> CR) s -> replaceCR s = s.
Proof.
  induction 1 as [|c s Hc _ IH]; simpl.
  - reflexivity.
  - apply N.eqb_neq in Hc. now rewrite Hc, IH.
Qed.

(** What the data listener holds splits into the complete lines and the
    residual. *)
Lemma split_lines text :
  split LF (replaceCR text) = complete_lines text ++ [residual text].
Proof.
  unfold complete_lines, residual.
  destruct (split_snoc LF (replaceCR text)) as [ls [r E]].
  now rewrite E, pop_snoc.
Qed.

Lemma residual_clean text : Forall (fun c => c <> CR) (residual text).
Proof.
  pose proof (split_Forall LF (replaceCR_clean text)) as H.
  rewrite split_lines in H. apply Forall_app in H as [_ H].
  now inversion H.
Qed.

Lemma split_lines_app text more :
  split LF (replaceCR (text ++ more)) =
  complete_lines text ++ split LF (replaceCR (residual text ++ more)).
Proof.
  rewrite !replaceCR_app, (replaceCR_id (residual_clean text)).
  apply split_app, split_lines.
Qed.

Lemma complete_lines_app text more :
  complete_lines (text ++ more) =
  complete_lines text ++ complete_lines (residual text ++ more).
Proof.
  unfold complete_lines at 1. rewrite split_lines_app, split_lines.
  now rewrite app_assoc, pop_snoc.
Qed.

Lemma residual_app text more :
  residual (text ++ more) = residual (residual text ++ more).
Proof.
  unfold residual at 1. rewrite split_lines_app, split_lines.
  now rewrite app_assoc, pop_snoc.
Qed.

Lemma frames_of_app l1 l2 : frames_of (l1 ++ l2) = frames_of l1 ++ frames_of l2.
Proof. unfold frames_of. now rewrite map_app, filter_app. Qed.

(** The one-pass reading of the specification agrees with the
    replace-split-pop pipeline of the listener. *)
Lemma spec_scan_lines text : forall cur,
  Forall (fun c => c <> LF) cur ->
  Forall (fun c => c <> CR) cur ->
  spec_scan cur text = frames_of (complete_lines (rev cur ++ text)).
Proof.
  induction text as [|c text IH]; intros cur Hlf Hcr.
  - simpl. rewrite app_nil_r. unfold complete_lines.
    rewrite replaceCR_id by now apply Forall_rev.
    rewrite split_free by now apply Forall_rev.
    reflexivity.
  - simpl. destruct (c =? LF)%N eqn:Elf.
    + apply N.eqb_eq in Elf; subst c.
      rewrite (IH []) by constructor. simpl rev. simpl app.
      unfold complete_lines.
      rewrite replaceCR_app, (replaceCR_id (s := rev cur))
        by now apply Forall_rev.
      simpl. rewrite split_free_sep by now apply Forall_rev.
      destruct (split_snoc LF (replaceCR text)) as [ls [r E]].
      rewrite E, app_comm_cons, !pop_snoc. unfold frames_of; simpl.
      now destruct (0 <? List.length (trim (rev cur))).
    + destruct (c =? CR)%N eqn:Ecr.
      * apply N.eqb_eq in Ecr; subst c.
        rewrite IH by assumption. unfold complete_lines.
        rewrite !replaceCR_app. reflexivity.
      * apply N.eqb_neq in Elf, Ecr.
        rewrite IH by (constructor; assumption).
        simpl. now rewrite <- app_assoc.
Qed.

Lemma spec_frames_lines text :
  spec_frames text = frames_of (complete_lines text).
Proof. apply (spec_scan_lines text (cur := [])); constructor. Qed.

(* ================================================================= *)
(** ** The broadcast helper *)

Lemma flat_map_if (A B : Type) (p : A -> bool) (f : A -> B) l :
  flat_map (fun x => if p x then [f x] else []) l = map f (filter p l).
Proof.
  induction l as [|x l IH]; simpl.
  - reflexivity.
  - destruct (p x); simpl; now rewrite IH.
Qed.

Lemma debugLog_state cfg msg s : state_of (debugLog cfg msg) s = s.
Proof. unfold debugLog. now destruct (DEBUG cfg). Qed.

Lemma debugLog_output cfg msg s :
  output_of (debugLog cfg msg) s = debug_out cfg msg.
Proof. unfold debugLog, debug_out. now destruct (DEBUG cfg). Qed.

Lemma broadcast_exec message sender s :
  state_of (broadcastToClients message sender) s = s /\
  output_of (broadcastToClients message sender) s =
  broadcast_out s message sender.
Proof.
  unfold broadcastToClients, broadcast_out, the_clients.
  rewrite state_get, output_get.
  destruct (wss s) as [w|]; [|split; reflexivity].
  rewrite <- flat_map_if.
  apply forEach_pure; intros x;
    destruct (notSender x sender && isOpen (readyState x)); reflexivity.
Qed.

Lemma broadcast_state message sender s :
  state_of (broadcastToClients message sender) s = s.
Proof. apply broadcast_exec. Qed.

Lemma broadcast_output message sender s :
  output_of (broadcastToClients message sender) s =
  broadcast_out s message sender.
Proof. apply broadcast_exec. Qed.

#[global] Hint Rewrite debugLog_state debugLog_output broadcast_state
  broadcast_output : js.

Lemma received_sends c message (l : list Client) :
  received c (map (fun x => WsSend (cid x) message) l) =
  map (fun _ => message) (filter (fun x => cid x =? c) l).
Proof.
  induction l as [|x l IH]; simpl.
  - reflexivity.
  - destruct (cid x =? c); simpl; now rewrite IH.
Qed.

Lemma filter_comm (A : Type) (p q : A -> bool) l :
  filter p (filter q l) = filter q (filter p l).
Proof.
  induction l as [|x l IH]; simpl.
  - reflexivity.
  - destruct (p x) eqn:Ep, (q x) eqn:Eq; simpl;
      rewrite ?Ep, ?Eq, IH; reflexivity.
Qed.

Lemma received_broadcast_open c message s :
  isOpenClient c s = true ->
  received c (broadcast_out s message None) = [message].
Proof.
  unfold isOpenClient, broadcast_out. intros H.
  rewrite received_sends, filter_comm.
  destruct (filter (fun x => cid x =? c) (the_clients s)) as [|x [|y l]];
    try discriminate.
  simpl. now rewrite H.
Qed.

Lemma received_debug cfg c msg : received c (debug_out cfg msg) = [].
Proof. unfold debug_out. now destruct (DEBUG cfg). Qed.

(* ================================================================= *)
(** ** The data listener *)

Lemma frames_loop cfg (lines : list jsstring) s :
  state_of (forEach lines (fun line =>
    let line := trim line in
    when (0 <? List.length line)
      (debugLog cfg (js "COM->WS | " ++ line) ;;
       broadcastToClients line None))) s = s /\
  output_of (forEach lines (fun line =>
    let line := trim line in
    when (0 <? List.length line)
      (debugLog cfg (js "COM->WS | " ++ line) ;;
       broadcastToClients line None))) s
  = flat_map (frame_out cfg s) lines.
Proof.
  apply forEach_pure; intros line; unfold frame_out; cbv zeta; js_simpl.
  - now destruct (0 <? List.length (trim line)).
  - reflexivity.
Qed.

Lemma onSerialData_state cfg data s :
  state_of (onSerialData cfg data) s =
  set_serialBuffer (capped (residual (serialBuffer s ++ data))) s.
Proof.
  unfold onSerialData. js_simpl. cbn [serialBuffer set_serialBuffer].
  rewrite split_lines, pop_snoc. js_simpl.
  rewrite (proj1 (frames_loop cfg _ _)). js_simpl.
  cbn [serialBuffer set_serialBuffer]. unfold capped.
  destruct (1024 <? List.length (residual (serialBuffer s ++ data)));
    reflexivity.
Qed.

Lemma onSerialData_output cfg data s :
  output_of (onSerialData cfg data) s =
  debug_out cfg (js "RAW COM DATA: " ++ data)
  ++ flat_map (frame_out cfg s) (complete_lines (serialBuffer s ++ data))
  ++ overflow_out (residual (serialBuffer s ++ data)).
Proof.
  unfold onSerialData. js_simpl. cbn [serialBuffer set_serialBuffer].
  rewrite split_lines, pop_snoc. js_simpl.
  rewrite (proj1 (frames_loop cfg _ _)), (proj2 (frames_loop cfg _ _)).
  js_simpl. cbn [serialBuffer set_serialBuffer]. unfold overflow_out.
  simpl app. now f_equal.
Qed.

Lemma received_frames cfg c s lines :
  isOpenClient c s = true ->
  received c (flat_map (frame_out cfg s) lines) = frames_of lines.
Proof.
  intros H. induction lines as [|l lines IH]; simpl.
  - reflexivity.
  - rewrite received_app, IH. unfold frame_out, frames_of. simpl.
    destruct (0 <? List.length (trim l)); [|reflexivity].
    now rewrite received_app, received_debug, received_broadcast_open.
Qed.

Lemma received_overflow c r : received c (overflow_out r) = [].
Proof. unfold overflow_out. now destruct (1024 <? List.length r). Qed.

Lemma onSerialData_received cfg c data s :
  isOpenClient c s = true ->
  received c (output_of (onSerialData cfg data) s) =
  frames_of (complete_lines (serialBuffer s ++ data)).
Proof.
  intros H. rewrite onSerialData_output, !received_app.
  rewrite received_debug, received_overflow, received_frames by assumption.
  now rewrite app_nil_r.
Qed.

Lemma split_segments_free sep t :
  Forall (Forall (fun c => c <> sep)) (split sep t).
Proof.
  induction t as [|c t IH]; simpl.
  - repeat constructor.
  - destruct (c =? sep)%N eqn:E.
    + constructor; [constructor | exact IH].
    + apply N.eqb_neq in E.
      destruct (split sep t) as [|seg segs].
      * repeat constructor; assumption.
      * inversion IH; subst. constructor; [now constructor | assumption].
Qed.

Lemma residual_no_LF text : Forall (fun c => c <> LF) (residual text).
Proof.
  pose proof (split_segments_free LF (replaceCR text)) as H.
  rewrite split_lines in H. apply Forall_app in H as [_ H].
  now inversion H.
Qed.

Lemma no_LF_Forall l :
  forallb (fun ch => negb (ch =? LF)%N) l = true ->
  Forall (fun c => c <> LF) l.
Proof.
  intros H. apply Forall_forall. intros c Hc.
  rewrite forallb_forall in H. specialize (H c Hc).
  apply negb_true_iff in H. now apply N.eqb_neq.
Qed.

Lemma complete_lines_none text :
  Forall (fun c => c <> LF) text -> complete_lines text = [].
Proof.
  intros H. unfold complete_lines. rewrite split_free.
  - reflexivity.
  - unfold replaceCR. apply Forall_forall. intros c Hc.
    apply filter_In in Hc as [Hc _].
    rewrite Forall_forall in H. now apply H.
Qed.

Lemma complete_lines_first line more :
  Forall (fun c => c <> LF) line ->
  Forall (fun c => c <> CR) (line ++ LF :: more) ->
  complete_lines (line ++ LF :: more) = line :: complete_lines more.
Proof.
  intros Hlf Hcr. unfold complete_lines.
  rewrite (replaceCR_id Hcr), split_free_sep by assumption.
  apply Forall_app in Hcr as [_ Hcr]. inversion Hcr; subst.
  rewrite (replaceCR_id (s := more)) by assumption.
  destruct (split_snoc LF more) as [ls [r E]].
  now rewrite E, app_comm_cons, !pop_snoc.
Qed.

Lemma complete_lines_replaceCR text :
  complete_lines (replaceCR text) = complete_lines text.
Proof.
  unfold complete_lines. now rewrite (replaceCR_id (replaceCR_clean text)).
Qed.

Lemma isOpenClient_data cfg c data s :
  isOpenClient c (state_of (onSerialData cfg data) s) = isOpenClient c s.
Proof. now rewrite onSerialData_state. Qed.

Lemma feed_cons cfg data chunks s :
  output_of (feed cfg (data :: chunks)) s =
  output_of (onSerialData cfg data) s ++
  output_of (feed cfg chunks) (state_of (onSerialData cfg data) s).
Proof. apply output_forEach_cons. Qed.

(** While the cap is respected, the sockets get the frames of the whole
    text. *)
Lemma feed_received cfg c chunks : forall s,
  isOpenClient c s = true ->
  Forall (fun ch => ch <> LF) (serialBuffer s) ->
  within_cap (serialBuffer s) chunks = true ->
  received c (output_of (feed cfg chunks) s) =
  frames_of (complete_lines (serialBuffer s ++ List.concat chunks)).
Proof.
  induction chunks as [|data chunks IH]; intros s Hc Hb Hcap.
  - simpl. rewrite app_nil_r, complete_lines_none by assumption.
    reflexivity.
  - simpl in Hcap. apply andb_true_iff in Hcap as [Hlen Hcap].
    apply Nat.leb_le in Hlen.
    assert (Es : state_of (onSerialData cfg data) s =
                 set_serialBuffer (residual (serialBuffer s ++ data)) s).
    { rewrite onSerialData_state. unfold capped.
      destruct (Nat.ltb_spec 1024
                  (List.length (residual (serialBuffer s ++ data))));
        [lia | reflexivity]. }
    rewrite feed_cons, received_app, onSerialData_received by assumption.
    rewrite Es, IH.
    + cbn [serialBuffer set_serialBuffer]. simpl List.concat.
      now rewrite app_assoc, <- frames_of_app, <- complete_lines_app.
    + exact Hc.
    + apply residual_no_LF.
    + exact Hcap.
Qed.

Lemma feed_once_received cfg c text s :
  isOpenClient c s = true ->
  received c (output_of (feed cfg [text]) s) =
  frames_of (complete_lines (serialBuffer s ++ text)).
Proof.
  intros Hc. rewrite feed_cons, received_app, onSerialData_received
    by assumption.
  apply app_nil_r.
Qed.

(* ================================================================= *)
(** ** Properties of the framer *)

Lemma decode_app a : forall d b,
  decoderAfter d a = Idle ->
  decode d (a ++ b) = decode d a ++ decode Idle b.
Proof.
  induction a as [|x a IH]; intros d b H; simpl in *.
  - now rewrite H.
  - destruct (decodeByte d (Byte.to_N x)) as [d' units]. simpl in H.
    now rewrite IH, app_assoc.
Qed.

(** Chunks that end at character boundaries decode, one by one, to the
    text of the whole; the last chunk may end anywhere. *)
Lemma whole_characters_decode chunks :
  forallb wholeCharacters (removelast chunks) = true ->
  List.concat (map toString chunks) = toString (List.concat chunks).
Proof.
  induction chunks as [|data chunks IH]; intros H.
  - reflexivity.
  - cbn [map List.concat]. destruct chunks as [|data' chunks].
    + simpl. now rewrite !app_nil_r.
    + change (removelast (data :: data' :: chunks))
        with (data :: removelast (data' :: chunks)) in H.
      cbn [forallb] in H. apply andb_true_iff in H as [Hd H].
      rewrite (IH H). unfold toString. rewrite decode_app; [reflexivity|].
      unfold wholeCharacters in Hd.
      now destruct (decoderAfter Idle data).
Qed.

(** A chunk of ASCII bytes ends at a character boundary. *)
Lemma ascii_wholeCharacters data :
  forallb (fun b => (Byte.to_N b <=? 127)%N) data = true ->
  wholeCharacters data = true.
Proof.
  unfold wholeCharacters. induction data as [|b data IH]; intros H.
  - reflexivity.
  - cbn [forallb] in H. apply andb_true_iff in H as [Hb H].
    cbn [decoderAfter decodeByte]. unfold lead.
    change (0x7F)%N with 127%N. rewrite Hb. now apply IH.
Qed.

Lemma feedBytes_feed cfg chunks :
  feedBytes cfg chunks = feed cfg (map toString chunks).
Proof.
  unfold feedBytes, feed. induction chunks as [|data chunks IH]; simpl.
  - reflexivity.
  - now rewrite IH.
Qed.

(** C1 (as amended).  For every byte sequence and every way of cutting
    it into chunks such that the chunks, decoded one by one as the data
    listener does, give the text of the whole sequence, and such that no
    invocation of the data listener retains more than 1024 code units,
    the frames sent to an open socket when the chunks arrive one by one
    are the frames sent when the same bytes arrive as one chunk, and
    these are the frames of the specification: the runs terminated by a
    line feed, carriage returns removed, trimmed, empty ones
    excluded. *)
Theorem framing_chunk_independent_within_cap cfg s c chunks :
  isOpenClient c s = true ->
  forallb (fun ch => negb (ch =? LF)%N) (serialBuffer s) = true ->
  List.concat (map toString chunks) = toString (List.concat chunks) ->
  within_cap (serialBuffer s) (map toString chunks) = true ->
  received c (output_of (feedBytes cfg chunks) s) =
  received c (output_of (feedBytes cfg [List.concat chunks]) s)
  /\ received c (output_of (feedBytes cfg [List.concat chunks]) s) =
     spec_frames (serialBuffer s ++ toString (List.concat chunks)).
Proof.
  intros Hc Hb Hdec Hcap. apply no_LF_Forall in Hb.
  rewrite !feedBytes_feed. cbn [map].
  rewrite feed_received, feed_once_received, spec_frames_lines by assumption.
  rewrite Hdec. split; reflexivity.
Qed.

Lemma framing_chunk_independent_within_cap_witness :
  received 0
    (output_of
       (feedBytes example_config
          [[Byte.x41; Byte.xe2; Byte.x82; Byte.xac]; [Byte.x42; Byte.x0a]])
       one_client) =
  received 0
    (output_of
       (feedBytes example_config
          [List.concat
             [[Byte.x41; Byte.xe2; Byte.x82; Byte.xac];
              [Byte.x42; Byte.x0a]]])
       one_client)
  /\ received 0
       (output_of
          (feedBytes example_config
             [List.concat
                [[Byte.x41; Byte.xe2; Byte.x82; Byte.xac];
                 [Byte.x42; Byte.x0a]]])
          one_client) =
     spec_frames
       (serialBuffer one_client
        ++ toString
             (List.concat
                [[Byte.x41; Byte.xe2; Byte.x82; Byte.xac];
                 [Byte.x42; Byte.x0a]])).
Proof.
  apply (@framing_chunk_independent_within_cap example_config one_client 0
           [[Byte.x41; Byte.xe2; Byte.x82; Byte.xac]; [Byte.x42; Byte.x0a]]);
    vm_compute; reflexivity.
Defined.

(** C1 (as stated) fails, in two ways.  1025 letters and then a line
    feed make no frame when they arrive as two chunks, because the
    overflow guard clears the buffer in between, and one frame when they
    arrive as one chunk.  The three bytes of a euro sign and a line feed
    make the frame of the euro sign when they arrive as one chunk; cut
    after the first byte, each part is decoded on its own and the frame
    is three replacement characters, although no invocation retains
    more than one code unit. *)
Lemma chunk_boundary_changes_frames :
  (received 0
     (output_of
        (feedBytes example_config [repeat Byte.x61 1025; [Byte.x0a]])
        one_client) = []
   /\ received 0
        (output_of
           (feedBytes example_config
              [List.concat [repeat Byte.x61 1025; [Byte.x0a]]])
           one_client) = [repeat 97%N 1025]
   /\ List.concat (map toString [repeat Byte.x61 1025; [Byte.x0a]]) =
      toString (List.concat [repeat Byte.x61 1025; [Byte.x0a]]))
  /\ (received 0
        (output_of
           (feedBytes example_config
              [[Byte.xe2]; [Byte.x82; Byte.xac; Byte.x0a]])
           one_client) = [[65533; 65533; 65533]%N]
      /\ received 0
           (output_of
              (feedBytes example_config
                 [List.concat [[Byte.xe2]; [Byte.x82; Byte.xac; Byte.x0a]]])
              one_client) = [[8364%N]]
      /\ within_cap (serialBuffer one_client)
           (map toString [[Byte.xe2]; [Byte.x82; Byte.xac; Byte.x0a]]) = true).
Proof.
  split; repeat (split; [vm_compute; reflexivity|]); vm_compute; reflexivity.
Qed.

Lemma warnings_debug cfg msg : warnings (debug_out cfg msg) = [].
Proof. unfold debug_out. now destruct (DEBUG cfg). Qed.

Lemma warnings_sends message (l : list Client) :
  warnings (map (fun x => WsSend (cid x) message) l) = [].
Proof. induction l as [|x l IH]; simpl; [reflexivity | exact IH]. Qed.

Lemma warnings_frames cfg s lines :
  warnings (flat_map (frame_out cfg s) lines) = [].
Proof.
  induction lines as [|l lines IH]; simpl.
  - reflexivity.
  - rewrite warnings_app, IH, app_nil_r. unfold frame_out.
    destruct (0 <? List.length (trim l)); [|reflexivity].
    rewrite warnings_app, warnings_debug. apply warnings_sends.
Qed.

(** C4 (as amended).  When the residual that the data listener retains
    after frame extraction is longer than 1024 code units, the [length]
    of the decoded text, the buffer is reset to
    empty and nothing else of the state changes, exactly one warning is
    reported, the frames sent are those of the complete lines only, and
    whatever arrives later is handled as by a framer with an empty
    buffer: no frame is ever made of the discarded residual. *)
Theorem overflow_discards_residual cfg s data :
  1024 < List.length (residual (serialBuffer s ++ data)) ->
  state_of (onSerialData cfg data) s = set_serialBuffer [] s
  /\ warnings (output_of (onSerialData cfg data) s) =
     [js "Serial buffer overflow, clearing incomplete data"]
  /\ (forall c, isOpenClient c s = true ->
        received c (output_of (onSerialData cfg data) s) =
        frames_of (complete_lines (serialBuffer s ++ data)))
  /\ (forall chunks,
        output_of (feed cfg chunks) (state_of (onSerialData cfg data) s) =
        output_of (feed cfg chunks) (set_serialBuffer [] s)).
Proof.
  intros H. apply Nat.ltb_lt in H.
  assert (Es : state_of (onSerialData cfg data) s = set_serialBuffer [] s).
  { rewrite onSerialData_state. unfold capped. now rewrite H. }
  split; [exact Es | split; [| split]].
  - rewrite onSerialData_output, !warnings_app.
    rewrite warnings_debug, warnings_frames. unfold overflow_out.
    now rewrite H.
  - intros c Hc. now apply onSerialData_received.
  - intros chunks. now rewrite Es.
Qed.

Lemma overflow_discards_residual_witness :
  state_of (onSerialData example_config (js "ok" ++ LF :: repeat 97%N 1025))
    one_client = set_serialBuffer [] one_client
  /\ warnings
       (output_of
          (onSerialData example_config (js "ok" ++ LF :: repeat 97%N 1025))
          one_client) =
     [js "Serial buffer overflow, clearing incomplete data"].
Proof.
  pose proof (@overflow_discards_residual example_config one_client
                (js "ok" ++ LF :: repeat 97%N 1025)) as H.
  assert (L : 1024 < List.length
                (residual (serialBuffer one_client
                           ++ js "ok" ++ LF :: repeat 97%N 1025))).
  { apply Nat.ltb_lt. vm_compute. reflexivity. }
  destruct (H L) as [H1 [H2 _]]. split; assumption.
Defined.

(** C4 (as stated) fails: the guard counts code units, not bytes.  600
    euro signs without a line feed are 1800 bytes; the data listener
    retains them all, 600 code units, reports nothing, and sends them as
    one frame when the line feed arrives. *)
Lemma multibyte_residual_retained :
  List.length (List.concat (repeat [Byte.xe2; Byte.x82; Byte.xac] 600)) = 1800
  /\ serialBuffer
       (state_of
          (onSerialData example_config
             (toString
                (List.concat (repeat [Byte.xe2; Byte.x82; Byte.xac] 600))))
          one_client) = repeat 8364%N 600
  /\ warnings
       (output_of
          (onSerialData example_config
             (toString
                (List.concat (repeat [Byte.xe2; Byte.x82; Byte.xac] 600))))
          one_client) = []
  /\ received 0
       (output_of
          (feedBytes example_config
             [List.concat (repeat [Byte.xe2; Byte.x82; Byte.xac] 600);
              [Byte.x0a]])
          one_client) = [repeat 8364%N 600].
Proof. repeat (split; [vm_compute; reflexivity|]). vm_compute. reflexivity. Qed.

(** While the invocations before the last respect the cap, the sockets
    get the frames of the whole text, whatever the last one retains. *)
Lemma feed_last_received cfg c before data : forall s,
  isOpenClient c s = true ->
  within_cap (serialBuffer s) before = true ->
  received c (output_of (feed cfg (before ++ [data])) s) =
  frames_of (complete_lines (serialBuffer s ++ List.concat before ++ data)).
Proof.
  induction before as [|d before IH]; intros s Hc Hcap.
  - now apply feed_once_received.
  - simpl in Hcap. apply andb_true_iff in Hcap as [Hlen Hcap].
    apply Nat.leb_le in Hlen.
    assert (Es : state_of (onSerialData cfg d) s =
                 set_serialBuffer (residual (serialBuffer s ++ d)) s).
    { rewrite onSerialData_state. unfold capped.
      destruct (Nat.ltb_spec 1024
                  (List.length (residual (serialBuffer s ++ d))));
        [lia | reflexivity]. }
    cbn [app]. rewrite feed_cons, received_app, onSerialData_received
      by assumption.
    rewrite Es, IH; [|exact Hc | exact Hcap].
    cbn [serialBuffer set_serialBuffer]. simpl List.concat.
    rewrite <- frames_of_app, <- complete_lines_app.
    now rewrite <- !app_assoc.
Qed.

(** C9 (as amended).  A line whose line feed is observed is sent in
    full, trimmed, whatever its length, provided no earlier invocation
    of the data listener retained more than 1024 code units: the guard
    looks at the residual only, after the lines were sent, so what the
    invocation that observes the line feed retains, and whether the
    guard fires in it, does not matter.  [before] are the chunks of the
    earlier invocations, none for a line that arrives in one chunk;
    [line] is the first line of the text, and the lines that follow it
    in [more] are sent in full likewise. *)
Theorem terminated_line_sent_whole cfg s c before data line more :
  isOpenClient c s = true ->
  forallb (fun ch => negb (ch =? LF)%N) line = true ->
  within_cap (serialBuffer s) before = true ->
  replaceCR (serialBuffer s ++ List.concat before ++ data) =
  line ++ LF :: more ->
  received c (output_of (feed cfg (before ++ [data])) s) =
  (if 0 <? List.length (trim line) then [trim line] else [])
  ++ frames_of (complete_lines more).
Proof.
  intros Hc Hline Hcap E. apply no_LF_Forall in Hline.
  rewrite feed_last_received by assumption.
  rewrite <- complete_lines_replaceCR, E.
  rewrite complete_lines_first.
  - unfold frames_of. simpl.
    now destruct (0 <? List.length (trim line)).
  - assumption.
  - rewrite <- E. apply replaceCR_clean.
Qed.

Lemma terminated_line_sent_whole_witness :
  received 0
    (output_of
       (feed example_config
          ([repeat 97%N 600]
           ++ [repeat 97%N 1400 ++ CR :: LF :: repeat 98%N 1025]))
       one_client) =
  (if 0 <? List.length (trim (repeat 97%N 2000))
   then [trim (repeat 97%N 2000)] else [])
  ++ frames_of (complete_lines (repeat 98%N 1025)).
Proof.
  apply (@terminated_line_sent_whole example_config one_client 0
           [repeat 97%N 600]
           (repeat 97%N 1400 ++ CR :: LF :: repeat 98%N 1025)
           (repeat 97%N 2000) (repeat 98%N 1025));
    vm_compute; reflexivity.
Defined.

(** C9 (as stated) fails: a line of 1026 letters whose first 1025 arrive
    in one chunk and whose last letter and line feed arrive in the next
    is sent as its last letter alone, the overflow guard having discarded
    the rest. *)
Lemma long_line_truncated_by_guard :
  received 0
    (output_of (feed example_config [repeat 97%N 1025; js "b" ++ [LF]])
       one_client) = [js "b"]
  /\ spec_frames (List.concat [repeat 97%N 1025; js "b" ++ [LF]]) =
     [repeat 97%N 1025 ++ js "b"]
  /\ received 0
       (output_of (feed example_config [repeat 97%N 1025; js "b" ++ [LF]])
          one_client)
     <> [repeat 97%N 1025 ++ js "b"].
Proof.
  assert (E1 : received 0
    (output_of (feed example_config [repeat 97%N 1025; js "b" ++ [LF]])
       one_client) = [js "b"]) by (vm_compute; reflexivity).
  split; [exact E1 | split; [vm_compute; reflexivity |]].
  rewrite E1. vm_compute. discriminate.
Qed.

(* ================================================================= *)
(** ** The handlers in closed form *)

Lemma console_log_state text s : state_of (console_log text) s = s.
Proof. reflexivity. Qed.

Lemma console_log_output text s :
  output_of (console_log text) s = [Console LOG text].
Proof. reflexivity. Qed.

Lemma console_warn_state text s : state_of (console_warn text) s = s.
Proof. reflexivity. Qed.

Lemma console_warn_output text s :
  output_of (console_warn text) s = [Console WARN text].
Proof. reflexivity. Qed.

Lemma console_error_state text s : state_of (console_error text) s = s.
Proof. reflexivity. Qed.

Lemma console_error_output text s :
  output_of (console_error text) s = [Console ERROR text].
Proof. reflexivity. Qed.

#[global] Hint Rewrite console_log_state console_log_output
  console_warn_state console_warn_output console_error_state
  console_error_output : js.

Lemma setTimeout_state cb ms s :
  state_of (setTimeout cb ms) s =
  set_timeouts (timeouts s ++ [{| callback := cb; delay := ms |}]) s.
Proof. reflexivity. Qed.

Lemma setTimeout_output cb ms s : output_of (setTimeout cb ms) s = [].
Proof. reflexivity. Qed.

Lemma clearInterval_state t s :
  state_of (clearInterval t) s =
  set_intervals (filter (fun i => negb (timer i =? t)) (intervals s)) s.
Proof. reflexivity. Qed.

Lemma stopPolling_state s :
  state_of stopPolling s =
  match pollTimer s with
  | Some t =>
      set_pollTimer None
        (set_intervals (filter (fun i => negb (timer i =? t)) (intervals s)) s)
  | None => s
  end.
Proof.
  unfold stopPolling. rewrite state_get.
  destruct (pollTimer s); reflexivity.
Qed.

Lemma stopPolling_output s : output_of stopPolling s = [].
Proof.
  unfold stopPolling. rewrite output_get.
  destruct (pollTimer s); reflexivity.
Qed.

Lemma startPolling_state cfg s :
  state_of (startPolling cfg) s =
  set_pollTimer (Some (nextTimer s))
    (set_nextTimer (S (nextTimer s))
       (set_intervals
          (match pollTimer s with
           | Some t => filter (fun i => negb (timer i =? t)) (intervals s)
           | None => intervals s
           end ++ [{| timer := nextTimer s; period := POLL_INTERVAL cfg |}])
          s)).
Proof.
  unfold startPolling. rewrite state_get.
  destruct (pollTimer s); reflexivity.
Qed.

Lemma startPolling_output cfg s : output_of (startPolling cfg) s = [].
Proof.
  unfold startPolling. rewrite output_get.
  destruct (pollTimer s); reflexivity.
Qed.

Lemma startWebSocketServer_state cfg s :
  state_of (startWebSocketServer cfg) s =
  match wss s with
  | Some _ => s
  | None => set_wss (Some {| port := WS_PORT cfg; clients := [] |}) s
  end.
Proof.
  unfold startWebSocketServer. rewrite state_get.
  destruct (wss s); reflexivity.
Qed.

Lemma startWebSocketServer_output cfg s :
  output_of (startWebSocketServer cfg) s =
  match wss s with
  | Some _ => []
  | None =>
      [NewWebSocketServer (WS_PORT cfg);
       Console LOG (js "WebSocket Server started on port "
                    ++ numberToString (WS_PORT cfg))]
  end.
Proof.
  unfold startWebSocketServer. rewrite output_get.
  destruct (wss s); reflexivity.
Qed.

Lemma initSerialPort_state cfg s :
  state_of (initSerialPort cfg) s =
  set_serial (Some (List.length (ports s))) (set_ports (ports s ++ [0]) s).
Proof. reflexivity. Qed.

Lemma initSerialPort_output cfg s :
  output_of (initSerialPort cfg) s =
  [Console LOG (js "Attempting to open serial port " ++ SERIAL_PORT cfg
                ++ js " at " ++ numberToString (SERIAL_BAUDRATE cfg)
                ++ js "...");
   NewSerialPort (SERIAL_PORT cfg) (SERIAL_BAUDRATE cfg);
   SerialOpen].
Proof. reflexivity. Qed.

Lemma pollTick_state s : state_of pollTick s = s.
Proof.
  unfold pollTick. rewrite state_get. now destruct (serialConnected s).
Qed.

Lemma pollTick_output s :
  output_of pollTick s =
  if serialConnected s then [SerialWrite (js "=R" ++ [CR; LF])] else [].
Proof.
  unfold pollTick. rewrite output_get. now destruct (serialConnected s).
Qed.

Lemma writeCallback_state err s : state_of (writeCallback err) s = s.
Proof. now destruct err. Qed.

Lemma writeCallback_output err s :
  output_of (writeCallback err) s =
  match err with
  | Some message => [Console ERROR (js "Error writing to serial: " ++ message)]
  | None => []
  end.
Proof. now destruct err. Qed.

Lemma onMessage_state message s : state_of (onMessage message) s = s.
Proof.
  unfold onMessage. rewrite state_get. now destruct (serialConnected s).
Qed.

Lemma onMessage_output message s :
  output_of (onMessage message) s =
  if serialConnected s then [SerialWrite (message ++ [CR; LF])]
  else [Console WARN (js "Serial not connected " ++ [226; 8364; 8221]%N
                      ++ js " WS message ignored")].
Proof.
  unfold onMessage. rewrite output_get. now destruct (serialConnected s).
Qed.

Lemma onWsClose_state cfg x s : state_of (onWsClose cfg x) s = s.
Proof. apply debugLog_state. Qed.

Lemma onWsClose_output cfg x s :
  output_of (onWsClose cfg x) s =
  debug_out cfg (js "WebSocket client from " ++ show (ip x)
                 ++ js " disconnected").
Proof. apply debugLog_output. Qed.

Lemma setupSerialHandlers_state s :
  state_of setupSerialHandlers s = set_ports (attachedPorts s) s.
Proof.
  unfold setupSerialHandlers, attachedPorts. rewrite state_get.
  destruct (serial s); [reflexivity|]. now destruct s.
Qed.

Lemma setupSerialHandlers_output s : output_of setupSerialHandlers s = [].
Proof.
  unfold setupSerialHandlers. rewrite output_get. now destruct (serial s).
Qed.

#[global] Hint Rewrite setTimeout_state setTimeout_output
  stopPolling_output startPolling_output
  initSerialPort_state initSerialPort_output pollTick_state
  writeCallback_state onMessage_state onWsClose_state onWsClose_output
  setupSerialHandlers_state setupSerialHandlers_output
  onSerialData_state : js.

Lemma onSerialClose_state s :
  state_of onSerialClose s =
  set_timeouts (timeouts s ++ [retry])
    (state_of stopPolling (set_serialConnected false s)).
Proof.
  unfold onSerialClose. js_simpl. rewrite stopPolling_state.
  cbn [pollTimer set_serialConnected].
  destruct (pollTimer s); reflexivity.
Qed.

Lemma onSerialClose_output s :
  output_of onSerialClose s =
  Console WARN (js "Serial port closed. Retrying connection in 5 seconds...")
  :: broadcast_out s (js "[STATUS] Serial disconnected") None.
Proof.
  unfold onSerialClose. js_simpl. rewrite stopPolling_state.
  cbn [pollTimer set_serialConnected]. rewrite app_nil_r.
  destruct (pollTimer s); reflexivity.
Qed.

Lemma onSerialError_state message s :
  state_of (onSerialError message) s =
  set_timeouts (timeouts s ++ [retry])
    (state_of stopPolling (set_serialConnected false s)).
Proof.
  unfold onSerialError. js_simpl. rewrite stopPolling_state.
  cbn [pollTimer set_serialConnected].
  destruct (pollTimer s); reflexivity.
Qed.

Lemma onSerialError_output message s :
  output_of (onSerialError message) s =
  Console ERROR (js "Serial port error: " ++ message)
  :: broadcast_out s (js "[STATUS] Serial error: " ++ message) None
  ++ [Console LOG (js "Reconnecting to serial port in 5 seconds...")].
Proof.
  unfold onSerialError. js_simpl. rewrite stopPolling_state.
  cbn [pollTimer set_serialConnected]. rewrite app_nil_r.
  destruct (pollTimer s); reflexivity.
Qed.

Lemma openCallback_failed_state cfg message s :
  state_of (openCallback cfg (Some message)) s =
  set_timeouts (timeouts s ++ [retry]) s.
Proof. reflexivity. Qed.

Lemma openCallback_opened_state cfg s :
  state_of (openCallback cfg None) s =
  set_ports (attachedPorts s)
    (state_of (startPolling cfg)
       (state_of (startWebSocketServer cfg) (set_serialConnected true s))).
Proof.
  unfold openCallback. js_simpl. rewrite !startPolling_state.
  unfold attachedPorts. rewrite startWebSocketServer_state.
  cbn [wss set_serialConnected]. now destruct (wss s).
Qed.

Lemma openCallback_opened_output cfg s :
  output_of (openCallback cfg None) s =
  Console LOG (js "Serial port " ++ SERIAL_PORT cfg
               ++ js " opened successfully at "
               ++ numberToString (SERIAL_BAUDRATE cfg)
               ++ js " 8N1" ++ [LF])
  :: output_of (startWebSocketServer cfg) (set_serialConnected true s)
  ++ broadcast_out s (js "[STATUS] Serial connected") None.
Proof.
  unfold openCallback. js_simpl. rewrite app_nil_r.
  rewrite startWebSocketServer_state. cbn [wss set_serialConnected].
  unfold broadcast_out, the_clients.
  destruct (wss s) eqn:E; cbn [wss set_wss set_serialConnected];
    rewrite ?E; reflexivity.
Qed.

(* ================================================================= *)
(** ** The sockets along the event loop *)

Lemma the_clients_set_clients l s :
  the_clients (set_clients l s) =
  match wss s with Some _ => l | None => [] end.
Proof.
  unfold set_clients, the_clients.
  destruct (wss s) eqn:E; cbn [wss set_wss clients]; [reflexivity|].
  now rewrite E.
Qed.

Lemma filter_id (A : Type) (p : A -> bool) l :
  (forall x, In x l -> p x = true) -> filter p l = l.
Proof.
  induction l as [|x l IH]; intros H; simpl.
  - reflexivity.
  - rewrite (H x) by now left.
    f_equal. apply IH. intros y Hy. apply H. now right.
Qed.

Lemma find_client_none c l :
  find_client c l = None -> filter (fun x => negb (cid x =? c)) l = l.
Proof.
  intros H. apply filter_id. intros x Hx.
  apply (find_none _ _ H) in Hx. now rewrite Hx.
Qed.

Lemma stopPolling_clients s :
  the_clients (state_of stopPolling s) = the_clients s.
Proof. rewrite stopPolling_state. now destruct (pollTimer s). Qed.

Lemma stopPolling_nextClient s :
  nextClient (state_of stopPolling s) = nextClient s.
Proof. rewrite stopPolling_state. now destruct (pollTimer s). Qed.

Lemma startWebSocketServer_clients cfg s :
  the_clients (state_of (startWebSocketServer cfg) s) = the_clients s.
Proof.
  rewrite startWebSocketServer_state. unfold the_clients.
  destruct (wss s) eqn:E; [now rewrite E | reflexivity].
Qed.

Lemma startWebSocketServer_nextClient cfg s :
  nextClient (state_of (startWebSocketServer cfg) s) = nextClient s.
Proof. rewrite startWebSocketServer_state. now destruct (wss s). Qed.

Lemma onConnection_state cfg c remoteAddress tok s :
  state_of (onConnection cfg c remoteAddress tok) s =
  set_clients
    (update_client c
       (if strictNotEqual tok (AUTH_TOKEN cfg) then closing
        else listen (remoteIp remoteAddress))
       (the_clients s)) s.
Proof.
  unfold onConnection. cbv zeta. js_simpl.
  destruct (strictNotEqual tok (AUTH_TOKEN cfg)).
  - unfold wsClose. now js_simpl.
  - js_simpl. now destruct (serialConnected s).
Qed.

Lemma onConnection_output cfg c remoteAddress tok s :
  output_of (onConnection cfg c remoteAddress tok) s =
  Console LOG (js "WebSocket client connected from IP: "
               ++ show (remoteIp remoteAddress))
  :: if strictNotEqual tok (AUTH_TOKEN cfg)
     then [Console LOG (js "Invalid token from IP: "
                        ++ show (remoteIp remoteAddress));
           WsClose c]
     else if serialConnected s then [SerialWrite (js "=R" ++ [CR; LF])]
          else [].
Proof.
  unfold onConnection. cbv zeta. js_simpl.
  destruct (strictNotEqual tok (AUTH_TOKEN cfg)).
  - unfold wsClose. now js_simpl.
  - js_simpl. now destruct (serialConnected s).
Qed.

Lemma connection_state cfg remoteAddress tok s :
  state_of (step cfg (EvWsConnection remoteAddress tok)) s =
  match wss s with
  | None => s
  | Some _ =>
      state_of (onConnection cfg (nextClient s) remoteAddress tok)
        (set_nextClient (S (nextClient s))
           (set_clients (the_clients s ++ [newClient s tok]) s))
  end.
Proof.
  unfold step. rewrite state_get.
  destruct (wss s); [|reflexivity].
  now rewrite state_bind.
Qed.

Lemma connection_output cfg remoteAddress tok s :
  output_of (step cfg (EvWsConnection remoteAddress tok)) s =
  match wss s with
  | None => []
  | Some _ =>
      output_of (onConnection cfg (nextClient s) remoteAddress tok)
        (set_nextClient (S (nextClient s))
           (set_clients (the_clients s ++ [newClient s tok]) s))
  end.
Proof.
  unfold step. rewrite output_get.
  destruct (wss s); [|reflexivity].
  now rewrite output_bind.
Qed.

Lemma step_the_clients cfg e s :
  the_clients (state_of (step cfg e) s) = step_clients cfg e s.
Proof.
  destruct e as [err| | | | | | | | | | |]; unfold step_clients;
    try (unfold step; js_simpl; reflexivity).
  - destruct err.
    + reflexivity.
    + unfold step. rewrite openCallback_opened_state, startPolling_state.
      cbn [the_clients wss set_ports set_pollTimer set_nextTimer set_intervals].
      apply (startWebSocketServer_clients cfg (set_serialConnected true s)).
  - unfold step. rewrite onSerialError_state.
    apply (stopPolling_clients (set_serialConnected false s)).
  - unfold step. rewrite onSerialClose_state.
    apply (stopPolling_clients (set_serialConnected false s)).
  - unfold step. rewrite state_get.
    destruct (timeouts s) as [|[[] d] rest]; reflexivity.
  - unfold step. rewrite state_get, state_when, pollTick_state.
    now destruct (isLive id s).
  - rewrite connection_state. destruct (wss s) eqn:E.
    + rewrite onConnection_state, !the_clients_set_clients.
      cbn [wss set_nextClient]. unfold set_clients. rewrite E.
      reflexivity.
    + unfold the_clients. now rewrite E.
  - unfold step. rewrite state_get.
    destruct (find_client c (the_clients s)) as [x|]; [|reflexivity].
    rewrite state_when, onMessage_state. now destruct (listening x).
  - unfold step. rewrite state_modify, the_clients_set_clients.
    unfold the_clients. destruct (wss s); reflexivity.
  - unfold step. rewrite state_get.
    destruct (find_client c (the_clients s)) as [x|] eqn:F.
    + rewrite state_seq, state_when, onWsClose_state.
      unfold forget. rewrite state_modify.
      assert (E : forall s' : State, (if listening x then s' else s') = s')
        by (intros; now destruct (listening x)).
      rewrite E, the_clients_set_clients.
      unfold the_clients. destruct (wss s); reflexivity.
    + now rewrite state_ret, find_client_none.
Qed.

Lemma step_the_nextClient cfg e s :
  nextClient (state_of (step cfg e) s) = step_nextClient e s.
Proof.
  destruct e as [err| | | | | | | | | | |]; unfold step_nextClient;
    try (unfold step; js_simpl; reflexivity).
  - destruct err.
    + reflexivity.
    + unfold step. rewrite openCallback_opened_state, startPolling_state.
      cbn [nextClient set_ports set_pollTimer set_nextTimer set_intervals].
      apply (startWebSocketServer_nextClient cfg (set_serialConnected true s)).
  - unfold step. rewrite onSerialError_state.
    apply (stopPolling_nextClient (set_serialConnected false s)).
  - unfold step. rewrite onSerialClose_state.
    apply (stopPolling_nextClient (set_serialConnected false s)).
  - unfold step. rewrite state_get.
    destruct (timeouts s) as [|[[] d] rest]; reflexivity.
  - unfold step. rewrite state_get, state_when, pollTick_state.
    now destruct (isLive id s).
  - rewrite connection_state. destruct (wss s) eqn:E; [|reflexivity].
    rewrite onConnection_state. unfold set_clients.
    cbn [wss set_nextClient]. now rewrite E.
  - unfold step. rewrite state_get.
    destruct (find_client c (the_clients s)) as [x|]; [|reflexivity].
    rewrite state_when, onMessage_state. now destruct (listening x).
  - unfold step. rewrite state_modify. unfold set_clients.
    now destruct (wss s).
  - unfold step. rewrite state_get.
    destruct (find_client c (the_clients s)) as [x|]; [|reflexivity].
    rewrite state_seq, state_when, onWsClose_state.
    unfold forget. rewrite state_modify. unfold set_clients.
    destruct (listening x), (wss s); reflexivity.
Qed.

Lemma update_client_cid c f l :
  (forall x, cid (f x) = cid x) ->
  map cid (update_client c f l) = map cid l.
Proof.
  intros H. unfold update_client. rewrite map_map.
  apply map_ext. intros x. destruct (cid x =? c); [apply H | reflexivity].
Qed.

Lemma update_client_Forall (P : Client -> Prop) c f l :
  (forall x, P x -> P (f x)) ->
  Forall P l -> Forall P (update_client c f l).
Proof.
  intros H HP. unfold update_client. apply Forall_map.
  eapply Forall_impl; [|exact HP].
  intros x Hx. destruct (cid x =? c); [now apply H | assumption].
Qed.

Lemma update_client_fresh n f l x :
  Forall (fun y => cid y < n) l -> cid x = n ->
  update_client n f (l ++ [x]) = l ++ [f x].
Proof.
  intros Hl Hx. unfold update_client. rewrite map_app. f_equal.
  - rewrite <- (map_id l) at 2. apply map_ext_in. intros y Hy.
    rewrite Forall_forall in Hl. specialize (Hl y Hy).
    destruct (Nat.eqb_spec (cid y) n); [lia | reflexivity].
  - simpl. now rewrite Hx, Nat.eqb_refl.
Qed.

Lemma filter_Forall (A : Type) (P : A -> Prop) p l :
  Forall P l -> Forall P (filter p l).
Proof.
  intros H. apply Forall_forall. intros x Hx.
  apply filter_In in Hx as [Hx _].
  rewrite Forall_forall in H. now apply H.
Qed.

Lemma closing_cid x : cid (closing x) = cid x.
Proof. unfold closing. now destruct (isOpen (readyState x)). Qed.

Lemma listen_cid i x : cid (listen i x) = cid x.
Proof. reflexivity. Qed.

Lemma closing_not_open x : isOpen (readyState (closing x)) = false.
Proof.
  unfold closing. destruct (isOpen (readyState x)) eqn:E;
    [reflexivity | exact E].
Qed.

Lemma closing_listening x : listening (closing x) = listening x.
Proof. unfold closing. now destruct (isOpen (readyState x)). Qed.

Lemma closing_authenticated cfg x :
  authenticated cfg (closing x) = authenticated cfg x.
Proof. unfold closing. now destruct (isOpen (readyState x)). Qed.

(** The sockets after a connection, when names are fresh. *)
Lemma connection_clients cfg remoteAddress tok s :
  Forall (fun x => cid x < nextClient s) (the_clients s) ->
  step_clients cfg (EvWsConnection remoteAddress tok) s =
  match wss s with
  | None => []
  | Some _ =>
      the_clients s ++
      [(if strictNotEqual tok (AUTH_TOKEN cfg) then closing
        else listen (remoteIp remoteAddress)) (newClient s tok)]
  end.
Proof.
  intros H. unfold step_clients. destruct (wss s); [|reflexivity].
  now apply update_client_fresh.
Qed.

Lemma filter_single t (l : list Interval) :
  map timer l = [t] -> filter (fun i => negb (timer i =? t)) l = [].
Proof.
  destruct l as [|i [|j l]]; try discriminate.
  simpl. intros E. injection E as ->. now rewrite Nat.eqb_refl.
Qed.

Lemma stopPolling_poll s :
  map timer (intervals s) =
    match pollTimer s with Some t => [t] | None => [] end ->
  pollTimer (state_of stopPolling s) = None /\
  intervals (state_of stopPolling s) = [].
Proof.
  intros H. rewrite stopPolling_state.
  destruct (pollTimer s) as [t|] eqn:E.
  - cbn [pollTimer intervals set_pollTimer set_intervals].
    split; [reflexivity | now apply filter_single].
  - split; [exact E|]. now destruct (intervals s).
Qed.

Lemma startPolling_poll cfg s :
  map timer (intervals s) =
    match pollTimer s with Some t => [t] | None => [] end ->
  map timer (intervals (state_of (startPolling cfg) s)) =
    match pollTimer (state_of (startPolling cfg) s) with
    | Some t => [t]
    | None => []
    end.
Proof.
  intros H. rewrite startPolling_state.
  cbn [pollTimer intervals set_ports set_pollTimer set_nextTimer set_intervals].
  destruct (pollTimer s) as [t|].
  - now rewrite filter_single.
  - destruct (intervals s); [reflexivity | discriminate].
Qed.

Lemma step_poll cfg e s :
  map timer (intervals s) =
    match pollTimer s with Some t => [t] | None => [] end ->
  map timer (intervals (state_of (step cfg e) s)) =
    match pollTimer (state_of (step cfg e) s) with
    | Some t => [t]
    | None => []
    end.
Proof.
  intros H.
  destruct e as [err| | | | | | | | | | |];
    try (unfold step; js_simpl; exact H).
  - destruct err.
    + exact H.
    + unfold step. rewrite openCallback_opened_state.
      apply startPolling_poll. rewrite startWebSocketServer_state.
      cbn [wss set_serialConnected]. now destruct (wss s).
  - unfold step. rewrite onSerialError_state.
    cbn [intervals pollTimer set_timeouts].
    now destruct (stopPolling_poll (set_serialConnected false s) H)
      as [-> ->].
  - unfold step. rewrite onSerialClose_state.
    cbn [intervals pollTimer set_timeouts].
    now destruct (stopPolling_poll (set_serialConnected false s) H)
      as [-> ->].
  - unfold step. rewrite state_get.
    destruct (timeouts s) as [|[[] d] rest]; exact H.
  - unfold step. rewrite state_get, state_when, pollTick_state.
    now destruct (isLive id s).
  - rewrite connection_state. destruct (wss s) eqn:E; [|exact H].
    rewrite onConnection_state. unfold set_clients.
    cbn [wss set_nextClient]. now rewrite E.
  - unfold step. rewrite state_get.
    destruct (find_client c (the_clients s)) as [x|]; [|exact H].
    rewrite state_when, onMessage_state. now destruct (listening x).
  - unfold step. rewrite state_modify. unfold set_clients.
    now destruct (wss s).
  - unfold step. rewrite state_get.
    destruct (find_client c (the_clients s)) as [x|]; [|exact H].
    rewrite state_seq, state_when, onWsClose_state.
    unfold forget. rewrite state_modify. unfold set_clients.
    destruct (listening x), (wss s); exact H.
Qed.

(* ================================================================= *)
(** ** The invariant of the event loop *)

Lemma newcomer_cid cfg remoteAddress tok s :
  cid ((if strictNotEqual tok (AUTH_TOKEN cfg) then closing
        else listen (remoteIp remoteAddress)) (newClient s tok)) =
  nextClient s.
Proof. now destruct (strictNotEqual tok (AUTH_TOKEN cfg)). Qed.

Lemma newcomer_open cfg remoteAddress tok s :
  isOpen (readyState
    ((if strictNotEqual tok (AUTH_TOKEN cfg) then closing
      else listen (remoteIp remoteAddress)) (newClient s tok))) = true ->
  authenticated cfg
    ((if strictNotEqual tok (AUTH_TOKEN cfg) then closing
      else listen (remoteIp remoteAddress)) (newClient s tok)) = true.
Proof.
  unfold authenticated.
  destruct (strictNotEqual tok (AUTH_TOKEN cfg)) eqn:E; simpl.
  - discriminate.
  - now rewrite E.
Qed.

Lemma newcomer_listening cfg remoteAddress tok s :
  listening
    ((if strictNotEqual tok (AUTH_TOKEN cfg) then closing
      else listen (remoteIp remoteAddress)) (newClient s tok)) = true ->
  authenticated cfg
    ((if strictNotEqual tok (AUTH_TOKEN cfg) then closing
      else listen (remoteIp remoteAddress)) (newClient s tok)) = true.
Proof.
  unfold authenticated.
  destruct (strictNotEqual tok (AUTH_TOKEN cfg)) eqn:E; simpl.
  - discriminate.
  - now rewrite E.
Qed.

Lemma step_Inv cfg e s : Inv cfg s -> Inv cfg (state_of (step cfg e) s).
Proof.
  intros [Hnd Hfr Hop Hli Hpo].
  constructor; rewrite ?step_the_clients, ?step_the_nextClient;
    [ | | | | now apply step_poll].
  - (* distinct names *)
    destruct e; try exact Hnd.
    + rewrite connection_clients by assumption.
      destruct (wss s); [|constructor].
      rewrite map_app. simpl map. rewrite newcomer_cid.
      apply NoDup_app; [assumption | repeat constructor; intros [] |].
      intros a Ha [E|[]]. apply in_map_iff in Ha as [x [Hx Hin]].
      rewrite Forall_forall in Hfr. specialize (Hfr x Hin). lia.
    + simpl. rewrite update_client_cid by apply closing_cid. exact Hnd.
    + simpl.
      rewrite <- (filter_map_swap (fun n => negb (n =? c)) cid).
      now apply NoDup_filter.
  - (* names below the counter *)
    destruct e; unfold step_nextClient;
      try (destruct (wss s); exact Hfr).
    + rewrite connection_clients by assumption.
      destruct (wss s); [|constructor].
      apply Forall_app. split.
      * eapply Forall_impl; [|exact Hfr]. simpl. intros; lia.
      * constructor; [|constructor]. rewrite newcomer_cid. lia.
    + simpl. destruct (wss s);
        (apply update_client_Forall; [|exact Hfr]);
        intros x Hx; now rewrite closing_cid.
    + simpl. destruct (wss s); now apply filter_Forall.
  - (* open sockets presented the token *)
    destruct e; try exact Hop.
    + rewrite connection_clients by assumption.
      destruct (wss s); [|constructor].
      apply Forall_app. split; [exact Hop|].
      repeat constructor. apply newcomer_open.
    + simpl. apply update_client_Forall; [|exact Hop].
      intros x _ Hx. now rewrite closing_not_open in Hx.
    + simpl. now apply filter_Forall.
  - (* listening sockets presented the token *)
    destruct e; try exact Hli.
    + rewrite connection_clients by assumption.
      destruct (wss s); [|constructor].
      apply Forall_app. split; [exact Hli|].
      repeat constructor. apply newcomer_listening.
    + simpl. apply update_client_Forall; [|exact Hli].
      intros x Hx. now rewrite closing_listening, closing_authenticated.
    + simpl. now apply filter_Forall.
Qed.

Lemma boot_globals cfg :
  boot cfg = set_serial (Some 0) (set_ports [0] globals).
Proof. reflexivity. Qed.

Lemma boot_Inv cfg : Inv cfg (boot cfg).
Proof. rewrite boot_globals. repeat constructor. Qed.

Lemma run_cons cfg e evs s :
  state_of (run cfg (e :: evs)) s =
  state_of (run cfg evs) (state_of (step cfg e) s).
Proof. apply state_forEach_cons. Qed.

Lemma run_output_cons cfg e evs s :
  output_of (run cfg (e :: evs)) s =
  output_of (step cfg e) s ++
  output_of (run cfg evs) (state_of (step cfg e) s).
Proof. apply output_forEach_cons. Qed.

Lemma run_Inv cfg evs : forall s,
  Inv cfg s -> Inv cfg (state_of (run cfg evs) s).
Proof.
  induction evs as [|e evs IH]; intros s H.
  - exact H.
  - rewrite run_cons. now apply IH, step_Inv.
Qed.

Lemma after_Inv cfg evs : Inv cfg (after cfg evs).
Proof. apply run_Inv, boot_Inv. Qed.

(* ================================================================= *)
(** ** Output and link state along the event loop *)

Lemma step_output cfg e s : output_of (step cfg e) s = step_out cfg e s.
Proof.
  destruct e as [err| | | | | | | | | | |]; unfold step_out.
  - destruct err.
    + reflexivity.
    + unfold step. rewrite openCallback_opened_output.
      now rewrite startWebSocketServer_output.
  - apply onSerialError_output.
  - apply onSerialClose_output.
  - apply onSerialData_output.
  - apply writeCallback_output.
  - unfold step. rewrite output_get.
    destruct (timeouts s) as [|[[] d] rest]; reflexivity.
  - unfold step. rewrite output_get, output_when.
    now rewrite pollTick_output.
  - rewrite connection_output. destruct (wss s) eqn:E; [|reflexivity].
    rewrite onConnection_output. unfold poll_out, set_clients.
    cbn [serialConnected set_nextClient]. now rewrite E.
  - unfold step. rewrite output_get.
    destruct (find_client c (the_clients s)) as [x|]; [|reflexivity].
    rewrite output_when, onMessage_output. reflexivity.
  - reflexivity.
  - unfold step. rewrite output_get.
    destruct (find_client c (the_clients s)) as [x|]; [|reflexivity].
    rewrite output_seq, output_when, onWsClose_output. reflexivity.
  - reflexivity.
Qed.

Lemma step_the_serialConnected cfg e s :
  serialConnected (state_of (step cfg e) s) = step_serialConnected e s.
Proof.
  destruct e as [err| | | | | | | | | | |]; unfold step_serialConnected;
    try (unfold step; js_simpl; reflexivity).
  - destruct err.
    + reflexivity.
    + unfold step. rewrite openCallback_opened_state, startPolling_state.
      cbn [serialConnected set_ports set_pollTimer set_nextTimer set_intervals].
      rewrite startWebSocketServer_state. cbn [wss set_serialConnected].
      now destruct (wss s).
  - unfold step. rewrite onSerialError_state, stopPolling_state.
    cbn [pollTimer set_serialConnected]. now destruct (pollTimer s).
  - unfold step. rewrite onSerialClose_state, stopPolling_state.
    cbn [pollTimer set_serialConnected]. now destruct (pollTimer s).
  - unfold step. rewrite state_get.
    destruct (timeouts s) as [|[[] d] rest]; reflexivity.
  - unfold step. rewrite state_get, state_when, pollTick_state.
    now destruct (isLive id s).
  - rewrite connection_state. destruct (wss s) eqn:E; [|reflexivity].
    rewrite onConnection_state. unfold set_clients.
    cbn [wss set_nextClient]. now rewrite E.
  - unfold step. rewrite state_get.
    destruct (find_client c (the_clients s)) as [x|]; [|reflexivity].
    rewrite state_when, onMessage_state. now destruct (listening x).
  - unfold step. rewrite state_modify. unfold set_clients.
    now destruct (wss s).
  - unfold step. rewrite state_get.
    destruct (find_client c (the_clients s)) as [x|]; [|reflexivity].
    rewrite state_seq, state_when, onWsClose_state.
    unfold forget. rewrite state_modify. unfold set_clients.
    destruct (listening x), (wss s); reflexivity.
Qed.

Lemma exec_pair (A : Type) (m : M A) s :
  exec m s = (state_of m s, output_of m s).
Proof. unfold state_of, output_of. now destruct (exec m s). Qed.

Lemma stopPolling_timeouts s : timeouts (state_of stopPolling s) = timeouts s.
Proof. rewrite stopPolling_state. now destruct (pollTimer s). Qed.

Lemma failure_timeouts cfg f s :
  timeouts (state_of (step cfg (failure_event f)) s) = timeouts s ++ [retry].
Proof.
  destruct f; simpl failure_event; unfold step.
  - reflexivity.
  - now rewrite onSerialError_state.
  - now rewrite onSerialClose_state.
Qed.

(* ================================================================= *)
(** ** Broadcast *)

Lemma filter_filter (A : Type) (p q : A -> bool) l :
  filter p (filter q l) = filter (fun x => p x && q x) l.
Proof.
  induction l as [|x l IH]; simpl.
  - reflexivity.
  - destruct (q x); simpl; [|now rewrite andb_false_r].
    rewrite andb_true_r. destruct (p x); now rewrite IH.
Qed.

Lemma open_filter_eligible cfg sender s :
  Inv cfg s ->
  filter (fun x => notSender x sender && isOpen (readyState x))
    (the_clients s) =
  filter (eligible cfg sender) (the_clients s).
Proof.
  intros H. apply filter_ext_in. intros x Hx. unfold eligible.
  pose proof (inv_open H) as Ho. rewrite Forall_forall in Ho.
  specialize (Ho x Hx).
  destruct (isOpen (readyState x)).
  - rewrite Ho by reflexivity. simpl. now rewrite andb_true_r.
  - now rewrite andb_false_r.
Qed.

Lemma filter_none (A : Type) (l : list A) : filter (fun _ => false) l = [].
Proof. induction l; [reflexivity | assumption]. Qed.

(** Among sockets with distinct names at most one is named [c]. *)
Lemma one_recipient (m : jsstring) c (p : Client -> bool) l :
  NoDup (map cid l) ->
  map (fun _ => m) (filter (fun x => (cid x =? c) && p x) l) =
  if existsb (fun x => (cid x =? c) && p x) l then [m] else [].
Proof.
  induction l as [|x l IH]; intros Hnd; simpl.
  - reflexivity.
  - inversion Hnd as [|? ? Hx Hl]; subst.
    destruct ((cid x =? c) && p x) eqn:E; simpl.
    + apply andb_true_iff in E as [E _]. apply Nat.eqb_eq in E.
      f_equal. rewrite filter_ext_in with (g := fun _ => false).
      * now rewrite filter_none.
      * intros y Hy. destruct (Nat.eqb_spec (cid y) c); [|reflexivity].
        exfalso. apply Hx. apply in_map_iff. exists y. split; [lia|exact Hy].
    + now apply IH.
Qed.

Lemma send_result x message s :
  send x message s =
  (negb (isDown (cid x) s), s, [WsSend (cid x) message]).
Proof. reflexivity. Qed.

Lemma delivered_sends s c message (l : list Client) :
  delivered s c (map (fun x => WsSend (cid x) message) l) =
  if isDown c s then []
  else map (fun _ => message) (filter (fun x => cid x =? c) l).
Proof.
  unfold delivered. induction l as [|x l IH]; simpl.
  - now destruct (isDown c s).
  - destruct (Nat.eqb_spec (cid x) c) as [->|N].
    + destruct (isDown c s); simpl; [exact IH|].
      now rewrite Nat.eqb_refl, IH.
    + destruct (isDown (cid x) s); simpl; [exact IH|].
      destruct (Nat.eqb_spec (cid x) c); [contradiction | exact IH].
Qed.

(** C3.  In every state that the event loop reaches,
    [broadcastToClients(message, sender)] sends [message], once, to
    exactly the sockets that are open, authenticated and not the sender,
    in the order of [wss.clients], and changes nothing: a socket that is
    closing, was closed and removed, or was turned away gets nothing.
    A send fails when the transport of its socket is down; it returns
    all the same, the loop goes on, and the message reaches the peer of
    a socket exactly when that socket is open, authenticated, not the
    sender and its own transport works, whatever sends to other sockets
    failed before or after it. *)
Theorem broadcast_reaches_open_authenticated cfg evs message sender :
  state_of (broadcastToClients message sender) (after cfg evs) =
  after cfg evs
  /\ output_of (broadcastToClients message sender) (after cfg evs) =
     map (fun x => WsSend (cid x) message)
       (filter (eligible cfg sender) (the_clients (after cfg evs)))
  /\ (forall c,
        received c
          (output_of (broadcastToClients message sender) (after cfg evs)) =
        if existsb (fun x => (cid x =? c) && eligible cfg sender x)
             (the_clients (after cfg evs))
        then [message] else [])
  /\ (forall c,
        delivered (after cfg evs) c
          (output_of (broadcastToClients message sender) (after cfg evs)) =
        if existsb (fun x => (cid x =? c) && eligible cfg sender x)
             (the_clients (after cfg evs))
           && negb (isDown c (after cfg evs))
        then [message] else []).
Proof.
  pose proof (after_Inv cfg evs) as H.
  rewrite broadcast_state, broadcast_output. unfold broadcast_out.
  rewrite (open_filter_eligible sender H).
  split; [reflexivity | split; [reflexivity|]].
  split; intros c.
  - rewrite received_sends, filter_filter.
    apply one_recipient, (inv_nodup H).
  - rewrite delivered_sends, filter_filter.
    destruct (isDown c (after cfg evs)).
    + now rewrite andb_false_r.
    + rewrite andb_true_r. apply one_recipient, (inv_nodup H).
Qed.

(** Two clients are connected and the transport of the first breaks:
    the send to it fails, and the second gets the message. *)
Example broadcast_past_a_failed_send :
  output_of (broadcastToClients (js "f=1407") None)
    (after example_config
       [EvOpenCallback None;
        EvWsConnection (Some (js "192.168.1.20")) (Some (js "secret"));
        EvWsConnection (Some (js "192.168.1.21")) (Some (js "secret"));
        EvWsTransportDown 0]) =
  [WsSend 0 (js "f=1407"); WsSend 1 (js "f=1407")]
  /\ delivered
       (after example_config
          [EvOpenCallback None;
           EvWsConnection (Some (js "192.168.1.20")) (Some (js "secret"));
           EvWsConnection (Some (js "192.168.1.21")) (Some (js "secret"));
           EvWsTransportDown 0])
       0
       [WsSend 0 (js "f=1407"); WsSend 1 (js "f=1407")] = []
  /\ delivered
       (after example_config
          [EvOpenCallback None;
           EvWsConnection (Some (js "192.168.1.20")) (Some (js "secret"));
           EvWsConnection (Some (js "192.168.1.21")) (Some (js "secret"));
           EvWsTransportDown 0])
       1
       [WsSend 0 (js "f=1407"); WsSend 1 (js "f=1407")] = [js "f=1407"].
Proof. repeat split; vm_compute; reflexivity. Qed.

(* ================================================================= *)
(** ** Turned-away sockets *)

Lemma received_broadcast_rejected c message sender s :
  Rejected c s -> received c (broadcast_out s message sender) = [].
Proof.
  intros [_ H]. unfold broadcast_out.
  rewrite received_sends, filter_filter.
  rewrite filter_ext_in with (g := fun _ => false);
    [now rewrite filter_none|].
  intros x Hx. rewrite Forall_forall in H. specialize (H x Hx).
  destruct (Nat.eqb_spec (cid x) c) as [E|]; [|reflexivity].
  destruct (H E) as [-> _]. simpl. now rewrite andb_false_r.
Qed.

Lemma received_frames_rejected cfg c s lines :
  Rejected c s -> received c (flat_map (frame_out cfg s) lines) = [].
Proof.
  intros H. induction lines as [|l lines IH]; simpl.
  - reflexivity.
  - rewrite received_app, IH, app_nil_r. unfold frame_out.
    destruct (0 <? List.length (trim l)); [|reflexivity].
    now rewrite received_app, received_debug, received_broadcast_rejected.
Qed.

Lemma rejected_receives_nothing cfg c e s :
  Rejected c s -> received c (step_out cfg e s) = [].
Proof.
  intros H. destruct e as [err| | | | | | | | | | |]; unfold step_out.
  - destruct err; [reflexivity|].
    change (Console LOG ?t :: ?o) with ([Console LOG t] ++ o).
    rewrite !received_app, received_broadcast_rejected by assumption.
    now destruct (wss s).
  - change (Console ERROR ?t :: ?o) with ([Console ERROR t] ++ o).
    rewrite !received_app, received_broadcast_rejected by assumption.
    reflexivity.
  - change (Console WARN ?t :: ?o) with ([Console WARN t] ++ o).
    rewrite !received_app, received_broadcast_rejected by assumption.
    reflexivity.
  - rewrite !received_app, received_debug, received_overflow.
    now rewrite received_frames_rejected.
  - now destruct err.
  - now destruct (timeouts s).
  - unfold poll_out. now destruct (isLive id s), (serialConnected s).
  - unfold poll_out.
    now destruct (wss s), (strictNotEqual token0 (AUTH_TOKEN cfg)),
      (serialConnected s).
  - destruct (find_client c0 (the_clients s)) as [x|]; [|reflexivity].
    now destruct (listening x), (serialConnected s).
  - reflexivity.
  - destruct (find_client c0 (the_clients s)) as [x|]; [|reflexivity].
    destruct (listening x); [apply received_debug | reflexivity].
  - reflexivity.
Qed.

Lemma step_Rejected cfg c e s :
  Inv cfg s -> Rejected c s -> Rejected c (state_of (step cfg e) s).
Proof.
  intros HI [Hc H]. pose proof (inv_fresh HI) as Hfr.
  split; rewrite ?step_the_clients, ?step_the_nextClient.
  - unfold step_nextClient. destruct e, (wss s); lia.
  - destruct e; try exact H.
    + rewrite connection_clients by assumption.
      destruct (wss s); [|constructor].
      apply Forall_app. split; [exact H|].
      constructor; [|constructor].
      rewrite newcomer_cid. intros E. lia.
    + simpl. apply update_client_Forall; [|exact H].
      intros x Hx. rewrite closing_cid, closing_listening.
      intros E. split; [apply closing_not_open | now apply Hx].
    + simpl. now apply filter_Forall.
Qed.

Lemma run_Rejected cfg c evs : forall s,
  Inv cfg s -> Rejected c s ->
  Rejected c (state_of (run cfg evs) s) /\
  received c (output_of (run cfg evs) s) = [].
Proof.
  induction evs as [|e evs IH]; intros s HI HR.
  - split; [exact HR | reflexivity].
  - rewrite run_cons, run_output_cons, received_app, step_output.
    rewrite rejected_receives_nothing by assumption.
    apply IH; [now apply step_Inv | now apply step_Rejected].
Qed.

Lemma find_client_last c l x :
  Forall (fun y => cid y < c) l -> cid x = c ->
  find_client c (l ++ [x]) = Some x.
Proof.
  intros Hl Hx. unfold find_client.
  induction Hl as [|y l Hy _ IH]; simpl.
  - now rewrite Hx, Nat.eqb_refl.
  - destruct (Nat.eqb_spec (cid y) c); [lia | exact IH].
Qed.

Lemma rejected_message_ignored cfg c message s :
  Rejected c s -> exec (step cfg (EvWsMessage c message)) s = (s, []).
Proof.
  intros [_ H]. rewrite exec_pair, step_output. unfold step, step_out.
  rewrite state_get.
  destruct (find_client c (the_clients s)) as [x|] eqn:F; [|reflexivity].
  apply find_some in F as [Hin Hx]. apply Nat.eqb_eq in Hx.
  rewrite Forall_forall in H. destruct (H x Hin Hx) as [_ ->].
  reflexivity.
Qed.

(** C5.  When a connection whose token is not the configured one comes
    in, the listener logs, closes the socket and returns: nothing is sent
    to the socket and nothing is written to the serial link.  The socket
    is left closing with no listeners, so that, whatever happens later,
    no message is ever sent to it, and a payload it sends is never read:
    its message event changes nothing and writes nothing. *)
Theorem rejected_connection_isolated cfg evs remoteAddress tok :
  strictNotEqual tok (AUTH_TOKEN cfg) = true ->
  wss (after cfg evs) <> None ->
  output_of (step cfg (EvWsConnection remoteAddress tok)) (after cfg evs) =
    [Console LOG (js "WebSocket client connected from IP: "
                  ++ show (remoteIp remoteAddress));
     Console LOG (js "Invalid token from IP: "
                  ++ show (remoteIp remoteAddress));
     WsClose (nextClient (after cfg evs))]
  /\ find_client (nextClient (after cfg evs))
       (the_clients
          (state_of (step cfg (EvWsConnection remoteAddress tok))
             (after cfg evs))) =
     Some (closing (newClient (after cfg evs) tok))
  /\ (forall later,
        received (nextClient (after cfg evs))
          (output_of (run cfg later)
             (state_of (step cfg (EvWsConnection remoteAddress tok))
                (after cfg evs))) = [])
  /\ (forall later message,
        exec (step cfg (EvWsMessage (nextClient (after cfg evs)) message))
          (state_of (run cfg later)
             (state_of (step cfg (EvWsConnection remoteAddress tok))
                (after cfg evs))) =
        (state_of (run cfg later)
           (state_of (step cfg (EvWsConnection remoteAddress tok))
              (after cfg evs)), [])).
Proof.
  intros Htok Hwss. pose proof (after_Inv cfg evs) as HI.
  set (s := after cfg evs) in *.
  pose proof (inv_fresh HI) as Hfr.
  assert (Hcl : the_clients
                  (state_of (step cfg (EvWsConnection remoteAddress tok)) s) =
                the_clients s ++ [closing (newClient s tok)]).
  { rewrite step_the_clients, connection_clients by assumption.
    rewrite Htok. destruct (wss s); [reflexivity | contradiction]. }
  assert (HR : Rejected (nextClient s)
                 (state_of (step cfg (EvWsConnection remoteAddress tok)) s)).
  { split.
    - rewrite step_the_nextClient. unfold step_nextClient.
      destruct (wss s); [lia | contradiction].
    - rewrite Hcl. apply Forall_app. split.
      + eapply Forall_impl; [|exact Hfr]. simpl. intros x Hx E. lia.
      + constructor; [|constructor]. intros _.
        split; [apply closing_not_open | now rewrite closing_listening]. }
  pose proof (step_Inv (EvWsConnection remoteAddress tok) HI) as HI'.
  split; [|split; [|split]].
  - rewrite step_output. unfold step_out. rewrite Htok.
    destruct (wss s); [reflexivity | contradiction].
  - rewrite Hcl. apply find_client_last; [exact Hfr | apply closing_cid].
  - intros later. now apply run_Rejected.
  - intros later message. apply rejected_message_ignored.
    now apply run_Rejected.
Qed.

Lemma rejected_connection_isolated_witness :
  received 1
    (output_of
       (run example_config
          [EvSerialData (js "14074000" ++ [CR; LF]); EvWsMessage 1 (js "=S");
           EvSerialClose])
       (state_of
          (step example_config
             (EvWsConnection (Some (js "10.0.0.9")) (Some (js "guess"))))
          (after example_config
             [EvOpenCallback None;
              EvWsConnection (Some (js "10.0.0.2")) (Some (js "secret"))])))
  = [].
Proof.
  apply (@rejected_connection_isolated example_config
           [EvOpenCallback None;
            EvWsConnection (Some (js "10.0.0.2")) (Some (js "secret"))]
           (Some (js "10.0.0.9")) (Some (js "guess"))).
  - vm_compute. reflexivity.
  - vm_compute. discriminate.
Defined.

(* ================================================================= *)
(** ** Writes to the serial link *)

Lemma serialWrites_sends message (l : list Client) :
  serialWrites (map (fun x => WsSend (cid x) message) l) = [].
Proof. induction l as [|x l IH]; simpl; [reflexivity | exact IH]. Qed.

Lemma serialWrites_broadcast s message sender :
  serialWrites (broadcast_out s message sender) = [].
Proof. apply serialWrites_sends. Qed.

Lemma serialWrites_debug cfg msg : serialWrites (debug_out cfg msg) = [].
Proof. unfold debug_out. now destruct (DEBUG cfg). Qed.

Lemma serialWrites_frames cfg s lines :
  serialWrites (flat_map (frame_out cfg s) lines) = [].
Proof.
  induction lines as [|l lines IH]; simpl.
  - reflexivity.
  - rewrite serialWrites_app, IH, app_nil_r. unfold frame_out.
    destruct (0 <? List.length (trim l)); [|reflexivity].
    now rewrite serialWrites_app, serialWrites_debug, serialWrites_broadcast.
Qed.

Lemma serialWrites_overflow r : serialWrites (overflow_out r) = [].
Proof. unfold overflow_out. now destruct (1024 <? List.length r). Qed.

(** While the link is not connected no event writes to it. *)
Lemma disconnected_silent cfg e s :
  serialConnected s = false -> serialWrites (step_out cfg e s) = [].
Proof.
  intros H. destruct e as [err| | | | | | | | | | |]; unfold step_out.
  - destruct err; [reflexivity|].
    change (Console LOG ?t :: ?o) with ([Console LOG t] ++ o).
    rewrite !serialWrites_app, serialWrites_broadcast.
    now destruct (wss s).
  - change (Console ERROR ?t :: ?o) with ([Console ERROR t] ++ o).
    now rewrite !serialWrites_app, serialWrites_broadcast.
  - change (Console WARN ?t :: ?o) with ([Console WARN t] ++ o).
    now rewrite !serialWrites_app, serialWrites_broadcast.
  - now rewrite !serialWrites_app, serialWrites_debug, serialWrites_overflow,
      serialWrites_frames.
  - now destruct err.
  - now destruct (timeouts s).
  - unfold poll_out. rewrite H. now destruct (isLive id s).
  - unfold poll_out. rewrite H.
    now destruct (wss s), (strictNotEqual token0 (AUTH_TOKEN cfg)).
  - rewrite H. destruct (find_client c (the_clients s)) as [x|];
      [|reflexivity].
    now destruct (listening x).
  - reflexivity.
  - destruct (find_client c (the_clients s)) as [x|]; [|reflexivity].
    destruct (listening x); [apply serialWrites_debug | reflexivity].
  - reflexivity.
Qed.

Lemma disconnected_run cfg evs : forall s,
  existsb isReconnect evs = false ->
  serialConnected s = false ->
  serialWrites (output_of (run cfg evs) s) = [].
Proof.
  induction evs as [|e evs IH]; intros s Hev Hs.
  - reflexivity.
  - simpl in Hev. apply orb_false_iff in Hev as [He Hev].
    rewrite run_output_cons, serialWrites_app, step_output.
    rewrite disconnected_silent by assumption.
    apply IH; [exact Hev|].
    rewrite step_the_serialConnected.
    destruct e as [[m|]| | | | | | | | | | |]; try exact Hs; try reflexivity.
    discriminate.
Qed.

(** C6.  When a connection with the configured token comes in and the
    link is connected, the poll command [=R] with its terminator is
    written to the serial link once, and nothing else is written; when
    the link is not connected nothing is written.  Either way the link
    state is as before: the connected flag, the buffer, the poll timer
    and the pending retries are unchanged. *)
Theorem accepted_connection_polls_once cfg remoteAddress tok s :
  strictNotEqual tok (AUTH_TOKEN cfg) = false ->
  wss s <> None ->
  serialWrites
    (output_of (step cfg (EvWsConnection remoteAddress tok)) s) =
    (if serialConnected s then [js "=R" ++ [CR; LF]] else [])
  /\ serialConnected
       (state_of (step cfg (EvWsConnection remoteAddress tok)) s) =
     serialConnected s
  /\ serialBuffer
       (state_of (step cfg (EvWsConnection remoteAddress tok)) s) =
     serialBuffer s
  /\ pollTimer (state_of (step cfg (EvWsConnection remoteAddress tok)) s) =
     pollTimer s
  /\ intervals (state_of (step cfg (EvWsConnection remoteAddress tok)) s) =
     intervals s
  /\ timeouts (state_of (step cfg (EvWsConnection remoteAddress tok)) s) =
     timeouts s.
Proof.
  intros Htok Hwss. rewrite step_output, connection_state, onConnection_state.
  unfold step_out, poll_out, set_clients. rewrite Htok.
  destruct (wss s) as [w|] eqn:E; [|contradiction].
  cbn [wss set_nextClient set_wss]. rewrite ?E.
  split; [now destruct (serialConnected s)|].
  repeat split.
Qed.

Lemma accepted_connection_polls_once_witness :
  serialWrites
    (output_of
       (step example_config
          (EvWsConnection (Some (js "10.0.0.2")) (Some (js "secret"))))
       (after example_config [EvOpenCallback None])) =
  (if serialConnected (after example_config [EvOpenCallback None])
   then [js "=R" ++ [CR; LF]] else []).
Proof.
  apply (@accepted_connection_polls_once example_config
           (Some (js "10.0.0.2")) (Some (js "secret"))
           (after example_config [EvOpenCallback None])).
  - vm_compute. reflexivity.
  - vm_compute. discriminate.
Defined.

(** C7.  A message event of a socket with listeners, while the link is
    not connected, writes nothing to the serial link and reports one
    warning; the state is exactly as before, so nothing of the message
    is kept to be written later and the socket stays as it was.  While
    the link is connected the payload is written followed by CR LF, and
    the state is as before. *)
Theorem message_dropped_when_disconnected cfg c message x s :
  find_client c (the_clients s) = Some x ->
  listening x = true ->
  exec (step cfg (EvWsMessage c message)) s =
  (s, if serialConnected s
      then [SerialWrite (message ++ [CR; LF])]
      else [Console WARN (js "Serial not connected " ++ [226; 8364; 8221]%N
                          ++ js " WS message ignored")]).
Proof.
  intros F L. rewrite exec_pair, step_output. unfold step, step_out.
  rewrite state_get, F, L, state_when, onMessage_state.
  reflexivity.
Qed.

Lemma message_dropped_when_disconnected_witness :
  exec (step example_config (EvWsMessage 0 (js "=S1")))
    (state_of (step example_config EvSerialClose) one_client) =
  (state_of (step example_config EvSerialClose) one_client,
   if serialConnected (state_of (step example_config EvSerialClose) one_client)
   then [SerialWrite (js "=S1" ++ [CR; LF])]
   else [Console WARN (js "Serial not connected " ++ [226; 8364; 8221]%N
                       ++ js " WS message ignored")]).
Proof.
  apply (@message_dropped_when_disconnected example_config 0 (js "=S1")
           {| cid := 0; readyState := OPEN; token := Some (js "secret");
              ip := Some (js "192.168.1.20"); listening := true |}
           (state_of (step example_config EvSerialClose) one_client)).
  - vm_compute. reflexivity.
  - reflexivity.
Defined.

(* ================================================================= *)
(** ** The events of the port objects *)

Lemma times_state cfg e n : forall s,
  state_of (times n (step cfg e)) s = state_of (run cfg (repeat e n)) s.
Proof.
  induction n as [|n IH]; intros s.
  - reflexivity.
  - cbn [times repeat]. now rewrite state_seq, run_cons, IH.
Qed.

Lemma times_output cfg e n : forall s,
  output_of (times n (step cfg e)) s = output_of (run cfg (repeat e n)) s.
Proof.
  induction n as [|n IH]; intros s.
  - reflexivity.
  - cbn [times repeat]. now rewrite output_seq, run_output_cons, IH.
Qed.

Lemma run_one_state cfg e s : state_of (run cfg [e]) s = state_of (step cfg e) s.
Proof. now rewrite run_cons. Qed.

Lemma run_one_output cfg e s :
  output_of (run cfg [e]) s = output_of (step cfg e) s.
Proof. rewrite run_output_cons. apply app_nil_r. Qed.

(** A happening is the runs of listeners and callbacks it consists of. *)
Lemma happen_state cfg h s :
  state_of (happen cfg h) s = state_of (run cfg (runsOf h s)) s.
Proof.
  destruct h as [p ev|e]; unfold happen, runsOf.
  - unfold portEmit. rewrite state_get. apply times_state.
  - now rewrite run_one_state.
Qed.

Lemma happen_output cfg h s :
  output_of (happen cfg h) s = output_of (run cfg (runsOf h s)) s.
Proof.
  destruct h as [p ev|e]; unfold happen, runsOf.
  - unfold portEmit. rewrite output_get. apply times_output.
  - now rewrite run_one_output.
Qed.

Lemma live_cons cfg h hs s :
  exec (live cfg (h :: hs)) s =
  if unhandled h s then (s, [])
  else exec (happen cfg h ;; live cfg hs) s.
Proof.
  cbn [live]. rewrite exec_pair, state_get, output_get.
  destruct (unhandled h s); [reflexivity | now rewrite <- exec_pair].
Qed.






(** The listeners of a port object are attached by the callback of a
    successful open only. *)
Lemma failure_ports cfg f s :
  ports (state_of (step cfg (failure_event f)) s) = ports s.
Proof.
  destruct f; simpl failure_event; unfold step.
  - reflexivity.
  - rewrite onSerialError_state, stopPolling_state.
    cbn [pollTimer set_serialConnected]. now destruct (pollTimer s).
  - rewrite onSerialClose_state, stopPolling_state.
    cbn [pollTimer set_serialConnected]. now destruct (pollTimer s).
Qed.

Lemma failures_timeouts cfg f n : forall s,
  timeouts (state_of (run cfg (repeat (failure_event f) n)) s) =
  timeouts s ++ repeat retry n
  /\ ports (state_of (run cfg (repeat (failure_event f) n)) s) = ports s.
Proof.
  induction n as [|n IH]; intros s.
  - simpl. now rewrite app_nil_r.
  - cbn [repeat]. rewrite run_cons.
    destruct (IH (state_of (step cfg (failure_event f)) s)) as [-> ->].
    rewrite failure_timeouts, failure_ports, <- app_assoc.
    split; reflexivity.
Qed.

Lemma failure_happening_runs p f s :
  runsOf (failure_happening p f) s = repeat (failure_event f) (retriesOf p f s).
Proof. destruct f; reflexivity. Qed.

Lemma failure_happening_timeouts cfg p f s :
  timeouts (state_of (happen cfg (failure_happening p f)) s) =
  timeouts s ++ repeat retry (retriesOf p f s)
  /\ ports (state_of (happen cfg (failure_happening p f)) s) = ports s.
Proof.
  rewrite happen_state, failure_happening_runs. apply failures_timeouts.
Qed.

Lemma retriesOfAll_ports fs s s' :
  ports s' = ports s -> retriesOfAll fs s' = retriesOfAll fs s.
Proof.
  intros H. induction fs as [|[p f] fs IH]; [reflexivity|].
  cbn [retriesOfAll]. rewrite IH.
  assert (L : forall q, listenersOf q s' = listenersOf q s)
    by (intros q; unfold listenersOf; now rewrite H).
  now destruct f as [m|m|]; cbn [failure_happening unhandled retriesOf];
    rewrite ?L.
Qed.

(* ================================================================= *)
(** ** Retries *)

(** C2 (as amended).  No retry is ever cancelled: the handle of the
    timer is not kept.  Every run of the callback of a failed open, of
    the error listener and of the close listener schedules exactly one
    new retry of the serial open, 5000 ms away, after those already
    pending.  An [error] or [close] event of a port object runs one
    listener for each time the listeners were attached to that object,
    and so schedules that many retries: one on a port opened in the
    ordinary way, none or several possibly after overlapping retries (an
    [error] event without a listener ends the process).  After any
    sequence of failures the pending retries are those that were pending
    before, followed by those the failures scheduled. *)
Theorem failures_schedule_one_retry_each cfg s :
  (forall f,
     timeouts (state_of (step cfg (failure_event f)) s) =
     timeouts s ++ [retry])
  /\ (forall p f,
        timeouts (state_of (happen cfg (failure_happening p f)) s) =
        timeouts s ++ repeat retry (retriesOf p f s))
  /\ (forall fs,
        timeouts
          (state_of
             (live cfg
                (map (fun pf => failure_happening (fst pf) (snd pf)) fs))
             s) =
        timeouts s ++ repeat retry (retriesOfAll fs s)).
Proof.
  split; [|split].
  - intros f. apply failure_timeouts.
  - intros p f. apply failure_happening_timeouts.
  - intros fs. revert s. induction fs as [|[p f] fs IH]; intros s.
    + simpl. now rewrite app_nil_r.
    + cbn [map fst snd retriesOfAll]. unfold state_of at 1.
      rewrite live_cons.
      destruct (unhandled (failure_happening p f) s).
      * simpl. now rewrite app_nil_r.
      * change (fst (exec ?m s)) with (state_of m s).
        rewrite state_seq, IH.
        destruct (failure_happening_timeouts cfg p f s) as [-> Hp].
        rewrite (@retriesOfAll_ports fs _ _ Hp), <- app_assoc.
        now rewrite repeat_app.
Qed.

(** C2 (as stated) fails: an error event and a close event of the open
    link leave two retries pending. *)
Lemma two_retries_pending :
  timeouts
    (after example_config
       [EvOpenCallback None; EvSerialError (js "device lost"); EvSerialClose])
  = [retry; retry]
  /\ ~ List.length
         (timeouts
            (after example_config
               [EvOpenCallback None; EvSerialError (js "device lost");
                EvSerialClose])) <= 1.
Proof.
  assert (E : timeouts
    (after example_config
       [EvOpenCallback None; EvSerialError (js "device lost"); EvSerialClose])
    = [retry; retry]) by (vm_compute; reflexivity).
  split; [exact E|]. rewrite E. simpl. lia.
Qed.

(* ================================================================= *)
(** ** The close event of the link *)






(* ================================================================= *)
(** ** The client server *)

Lemma serversCreated_sends message (l : list Client) :
  serversCreated (map (fun x => WsSend (cid x) message) l) = [].
Proof. induction l as [|x l IH]; simpl; [reflexivity | exact IH]. Qed.

Lemma serversCreated_debug cfg msg : serversCreated (debug_out cfg msg) = [].
Proof. unfold debug_out. now destruct (DEBUG cfg). Qed.

Lemma serversCreated_frames cfg s lines :
  serversCreated (flat_map (frame_out cfg s) lines) = [].
Proof.
  induction lines as [|l lines IH]; simpl.
  - reflexivity.
  - rewrite serversCreated_app, IH, app_nil_r. unfold frame_out.
    destruct (0 <? List.length (trim l)); [|reflexivity].
    rewrite serversCreated_app, serversCreated_debug.
    apply serversCreated_sends.
Qed.

Lemma serversCreated_overflow r : serversCreated (overflow_out r) = [].
Proof. unfold overflow_out. now destruct (1024 <? List.length r). Qed.

Lemma step_serversCreated cfg e s :
  serversCreated (step_out cfg e s) =
  match e, wss s with
  | EvOpenCallback None, None => [WS_PORT cfg]
  | _, _ => []
  end.
Proof.
  destruct e as [err| | | | | | | | | | |]; unfold step_out.
  - destruct err; [now destruct (wss s)|].
    change (Console LOG ?t :: ?o) with ([Console LOG t] ++ o).
    rewrite !serversCreated_app. unfold broadcast_out.
    rewrite serversCreated_sends. now destruct (wss s).
  - change (Console ERROR ?t :: ?o) with ([Console ERROR t] ++ o).
    rewrite !serversCreated_app. unfold broadcast_out.
    rewrite serversCreated_sends. now destruct (wss s).
  - change (Console WARN ?t :: ?o) with ([Console WARN t] ++ o).
    rewrite !serversCreated_app. unfold broadcast_out.
    rewrite serversCreated_sends. now destruct (wss s).
  - rewrite !serversCreated_app, serversCreated_debug,
      serversCreated_overflow, serversCreated_frames.
    now destruct (wss s).
  - now destruct err, (wss s).
  - now destruct (timeouts s), (wss s).
  - unfold poll_out.
    now destruct (isLive id s), (serialConnected s), (wss s).
  - unfold poll_out.
    now destruct (wss s), (strictNotEqual token0 (AUTH_TOKEN cfg)),
      (serialConnected s).
  - destruct (find_client c (the_clients s)) as [x|];
      [|now destruct (wss s)].
    now destruct (listening x), (serialConnected s), (wss s).
  - now destruct (wss s).
  - destruct (find_client c (the_clients s)) as [x|];
      [|now destruct (wss s)].
    destruct (listening x); [|now destruct (wss s)].
    rewrite serversCreated_debug. now destruct (wss s).
  - reflexivity.
Qed.

(** Once the server exists it stays, and a successful open makes it. *)
Lemma step_wss cfg e s :
  (wss s <> None \/ e = EvOpenCallback None) ->
  wss (state_of (step cfg e) s) <> None.
Proof.
  intros H.
  assert (K : forall l, wss s <> None -> wss (set_clients l s) <> None).
  { intros l Hs. unfold set_clients.
    destruct (wss s); [discriminate | contradiction]. }
  destruct e as [err| | | | | | | | | | |];
    try (destruct H as [H|H]; [|discriminate]).
  - destruct err as [m|].
    + destruct H as [H|H]; [exact H | discriminate].
    + unfold step. rewrite openCallback_opened_state, startPolling_state.
      cbn [wss set_ports set_pollTimer set_nextTimer set_intervals].
      rewrite startWebSocketServer_state. cbn [wss set_serialConnected].
      destruct (wss s) eqn:E; cbn [wss set_serialConnected set_wss];
        rewrite ?E; discriminate.
  - unfold step. rewrite onSerialError_state, stopPolling_state.
    cbn [pollTimer set_serialConnected]. now destruct (pollTimer s).
  - unfold step. rewrite onSerialClose_state, stopPolling_state.
    cbn [pollTimer set_serialConnected]. now destruct (pollTimer s).
  - unfold step. now js_simpl.
  - unfold step. now js_simpl.
  - unfold step. rewrite state_get.
    now destruct (timeouts s) as [|[[] d] rest].
  - unfold step. rewrite state_get, state_when, pollTick_state.
    now destruct (isLive id s).
  - rewrite connection_state. destruct (wss s) eqn:E; [|contradiction].
    rewrite onConnection_state. unfold set_clients.
    cbn [wss set_nextClient]. now rewrite E.
  - unfold step. rewrite state_get.
    destruct (find_client c (the_clients s)) as [x|]; [|exact H].
    rewrite state_when, onMessage_state. now destruct (listening x).
  - unfold step. rewrite state_modify. now apply K.
  - unfold step. rewrite state_get.
    destruct (find_client c (the_clients s)) as [x|]; [|exact H].
    rewrite state_seq, state_when, onWsClose_state.
    unfold forget. rewrite state_modify.
    destruct (listening x); now apply K.
  - exact H.
Qed.

Lemma run_serversCreated cfg evs : forall s,
  List.length (serversCreated (output_of (run cfg evs) s)) <= 1
  /\ (wss s <> None -> serversCreated (output_of (run cfg evs) s) = []).
Proof.
  induction evs as [|e evs IH]; intros s.
  - split; [simpl; lia | reflexivity].
  - rewrite run_output_cons, serversCreated_app, step_output,
      step_serversCreated.
    destruct (IH (state_of (step cfg e) s)) as [IH1 IH2].
    split.
    + destruct e as [[m|]| | | | | | | | | | |]; try exact IH1.
      destruct (wss s) eqn:E; [exact IH1|].
      rewrite IH2; [simpl; lia|]. apply step_wss. now right.
    + intros Hs. rewrite IH2 by (apply step_wss; now left).
      destruct (wss s); [|contradiction].
      now destruct e as [[m|]| | | | | | | | | | |].
Qed.

(** C10.  Starting the client gateway is idempotent: when the server
    exists [startWebSocketServer] returns at once, changing and creating
    nothing, so a second call after a first does nothing.  Over the
    whole life of the process, however many times the link is opened, at
    most one client server is created; and a successful open of the link
    leaves the sockets of [wss.clients] as they were. *)
Theorem client_server_created_once cfg :
  (forall s,
     exec (startWebSocketServer cfg) (state_of (startWebSocketServer cfg) s) =
     (state_of (startWebSocketServer cfg) s, []))
  /\ (forall s w, wss s = Some w ->
        exec (startWebSocketServer cfg) s = (s, []))
  /\ (forall evs,
        List.length
          (serversCreated (output_of (process cfg evs) globals)) <= 1)
  /\ (forall s,
        the_clients (state_of (step cfg (EvOpenCallback None)) s) =
        the_clients s).
Proof.
  assert (G : forall s w, wss s = Some w ->
                exec (startWebSocketServer cfg) s = (s, [])).
  { intros s w E. rewrite exec_pair, startWebSocketServer_state,
      startWebSocketServer_output. now rewrite E. }
  split; [|split; [exact G | split]].
  - intros s. rewrite startWebSocketServer_state.
    destruct (wss s) as [w|] eqn:E.
    + now apply G with w.
    + now apply G with {| port := WS_PORT cfg; clients := [] |}.
  - intros evs. unfold process.
    rewrite output_seq, serversCreated_app, initSerialPort_output.
    apply run_serversCreated.
  - intros s. now rewrite step_the_clients.
Qed.

Lemma client_server_created_once_witness :
  exec (startWebSocketServer example_config) two_clients = (two_clients, []).
Proof.
  apply (proj1 (proj2 (client_server_created_once example_config)))
    with (w := {| port := 8080; clients := the_clients two_clients |}).
  vm_compute. reflexivity.
Defined.

(* ================================================================= *)
(** ** The whole state along the event loop *)

Lemma step_state_eq cfg e s : state_of (step cfg e) s = step_state cfg e s.
Proof.
  destruct e as [err| | | | | | | | | | |]; unfold step_state.
  - destruct err; [reflexivity | apply openCallback_opened_state].
  - apply onSerialError_state.
  - apply onSerialClose_state.
  - apply onSerialData_state.
  - apply writeCallback_state.
  - unfold step. rewrite state_get.
    destruct (timeouts s) as [|[[] d] rest]; reflexivity.
  - unfold step. rewrite state_get, state_when, pollTick_state.
    now destruct (isLive id s).
  - rewrite connection_state. destruct (wss s) eqn:E; [|reflexivity].
    rewrite onConnection_state.
    change (the_clients (set_nextClient ?n ?s')) with (the_clients s').
    now rewrite the_clients_set_clients, E.
  - unfold step. rewrite state_get.
    destruct (find_client c (the_clients s)) as [x|]; [|reflexivity].
    rewrite state_when, onMessage_state. now destruct (listening x).
  - reflexivity.
  - unfold step. rewrite state_get.
    destruct (find_client c (the_clients s)) as [x|]; [|reflexivity].
    rewrite state_seq, state_when, onWsClose_state.
    unfold forget. rewrite state_modify. now destruct (listening x).
  - reflexivity.
Qed.

Lemma set_clients_link l s :
  intervals (set_clients l s) = intervals s
  /\ pollTimer (set_clients l s) = pollTimer s
  /\ serialConnected (set_clients l s) = serialConnected s
  /\ serialBuffer (set_clients l s) = serialBuffer s
  /\ timeouts (set_clients l s) = timeouts s
  /\ nextClient (set_clients l s) = nextClient s.
Proof. unfold set_clients. destruct (wss s); repeat split. Qed.

Lemma startWebSocketServer_link cfg s :
  intervals (state_of (startWebSocketServer cfg) s) = intervals s
  /\ pollTimer (state_of (startWebSocketServer cfg) s) = pollTimer s
  /\ serialConnected (state_of (startWebSocketServer cfg) s) =
     serialConnected s
  /\ serialBuffer (state_of (startWebSocketServer cfg) s) = serialBuffer s
  /\ timeouts (state_of (startWebSocketServer cfg) s) = timeouts s
  /\ nextTimer (state_of (startWebSocketServer cfg) s) = nextTimer s.
Proof.
  rewrite startWebSocketServer_state. destruct (wss s); repeat split.
Qed.

Lemma stopPolling_link s :
  serialConnected (state_of stopPolling s) = serialConnected s
  /\ serialBuffer (state_of stopPolling s) = serialBuffer s
  /\ wss (state_of stopPolling s) = wss s.
Proof. rewrite stopPolling_state. destruct (pollTimer s); repeat split. Qed.

Lemma step_PollLink cfg e s :
  PollLink cfg s -> PollLink cfg (state_of (step cfg e) s).
Proof.
  intros [Hi Hc]. rewrite step_state_eq. unfold PollLink.
  destruct e as [[m|]| | | | | | | | | | |]; unfold step_state;
    try (split; assumption).
  - (* the link opened *)
    rewrite startPolling_state.
    cbn [intervals pollTimer serialConnected set_ports set_pollTimer set_nextTimer
         set_intervals].
    destruct (startWebSocketServer_link cfg (set_serialConnected true s))
      as (-> & -> & -> & _ & _ & ->).
    cbn [intervals pollTimer serialConnected nextTimer set_serialConnected].
    destruct (pollTimer s) as [t|] eqn:E; rewrite Hi; simpl;
      rewrite ?Nat.eqb_refl; split; reflexivity.
  - (* error *)
    rewrite stopPolling_state.
    cbn [pollTimer intervals set_serialConnected].
    destruct (pollTimer s) as [t|] eqn:E; simpl; rewrite ?E, ?Hi; simpl;
      rewrite ?Nat.eqb_refl; split; reflexivity.
  - (* close *)
    rewrite stopPolling_state.
    cbn [pollTimer intervals set_serialConnected].
    destruct (pollTimer s) as [t|] eqn:E; simpl; rewrite ?E, ?Hi; simpl;
      rewrite ?Nat.eqb_refl; split; reflexivity.
  - destruct (timeouts s); split; assumption.
  - destruct (wss s); [|split; assumption].
    match goal with
    | |- context [set_clients ?l ?s'] =>
        destruct (set_clients_link l s') as (-> & -> & -> & _)
    end.
    cbn [intervals pollTimer serialConnected set_nextClient].
    match goal with
    | |- context [set_clients ?l ?s'] =>
        destruct (set_clients_link l s') as (-> & -> & -> & _)
    end.
    split; assumption.
  - destruct (set_clients_link (update_client c closing (the_clients s)) s)
      as (-> & -> & -> & _).
    split; assumption.
  - destruct (find_client c (the_clients s)); [|split; assumption].
    match goal with
    | |- context [set_clients ?l ?s'] =>
        destruct (set_clients_link l s') as (-> & -> & -> & _)
    end.
    split; assumption.
Qed.

Lemma run_PollLink cfg evs : forall s,
  PollLink cfg s -> PollLink cfg (state_of (run cfg evs) s).
Proof.
  induction evs as [|e evs IH]; intros s H.
  - exact H.
  - rewrite run_cons. now apply IH, step_PollLink.
Qed.

Lemma after_PollLink cfg evs : PollLink cfg (after cfg evs).
Proof. apply run_PollLink. rewrite boot_globals. split; reflexivity. Qed.

(* ================================================================= *)
(** ** Polling *)

(** X1.  In every state that the event loop reaches at most one poll
    interval is live: the one whose handle [pollTimer] holds, ticking at
    the configured period.  [startPolling] replaces, [stopPolling]
    clears, and nothing else touches the intervals. *)
Theorem one_poll_interval cfg evs :
  intervals (after cfg evs) =
  match pollTimer (after cfg evs) with
  | Some t => [{| timer := t; period := POLL_INTERVAL cfg |}]
  | None => []
  end.
Proof. apply after_PollLink. Qed.

(** X2.  In every state that the event loop reaches the poll timer is
    set exactly while the link is connected. *)
Theorem polling_iff_connected cfg evs :
  serialConnected (after cfg evs) =
  match pollTimer (after cfg evs) with Some _ => true | None => false end.
Proof. apply after_PollLink. Qed.

(** X3.  In every state that the event loop reaches, a tick of the live
    poll interval writes the poll command [=R] followed by CR LF to the
    serial link, once, and changes nothing: the test of the connected
    flag in the tick never fails.  A tick of any other timer does
    nothing. *)
Theorem live_tick_writes_poll cfg evs id :
  exec (step cfg (EvInterval id)) (after cfg evs) =
  (after cfg evs,
   if isLive id (after cfg evs)
   then [SerialWrite (js "=R" ++ [CR; LF])] else []).
Proof.
  destruct (after_PollLink cfg evs) as [Hi Hc].
  rewrite exec_pair, step_state_eq, step_output.
  unfold step_state, step_out, poll_out, isLive. rewrite Hi, Hc.
  now destruct (pollTimer (after cfg evs)).
Qed.

(** X4.  Whatever the state and the event, everything the event writes
    to the serial link is written while the link is connected and ends
    with CR LF. *)
Theorem serial_writes_connected_and_terminated cfg e s :
  Forall (fun d => serialConnected s = true
                   /\ exists payload, d = payload ++ [CR; LF])
    (serialWrites (output_of (step cfg e) s)).
Proof.
  rewrite step_output. destruct (serialConnected s) eqn:H;
    [|rewrite disconnected_silent by assumption; constructor].
  assert (P : Forall (fun d => true = true
                               /\ exists payload, d = payload ++ [CR; LF])
                (serialWrites (poll_out s))).
  { unfold poll_out. rewrite H. repeat constructor. now exists (js "=R"). }
  destruct e as [err| | | | | | | | | | |]; unfold step_out.
  - destruct err; [constructor|].
    change (Console LOG ?t :: ?o) with ([Console LOG t] ++ o).
    rewrite !serialWrites_app, serialWrites_broadcast.
    destruct (wss s); constructor.
  - change (Console ERROR ?t :: ?o) with ([Console ERROR t] ++ o).
    rewrite !serialWrites_app, serialWrites_broadcast. constructor.
  - change (Console WARN ?t :: ?o) with ([Console WARN t] ++ o).
    rewrite !serialWrites_app, serialWrites_broadcast. constructor.
  - rewrite !serialWrites_app, serialWrites_debug, serialWrites_overflow,
      serialWrites_frames. constructor.
  - destruct err; constructor.
  - destruct (timeouts s); constructor.
  - destruct (isLive id s); [exact P | constructor].
  - destruct (wss s); [|constructor].
    destruct (strictNotEqual token0 (AUTH_TOKEN cfg)); [constructor|].
    exact P.
  - destruct (find_client c (the_clients s)) as [x|]; [|constructor].
    destruct (listening x); [|constructor].
    rewrite H. repeat constructor. now exists message.
  - constructor.
  - destruct (find_client c (the_clients s)) as [x|]; [|constructor].
    destruct (listening x); [|constructor].
    rewrite serialWrites_debug. constructor.
  - easy.
Qed.

(** X5.  Whatever the state, the connected flag after an event is true
    for a successful open, false for an error or close event of the
    link, and unchanged for every other event: a failed open, a failed
    write, a retry that fires, a tick, serial data and client events
    never change it. *)
Theorem link_state_follows_link_events cfg e s :
  serialConnected (state_of (step cfg e) s) =
  match e with
  | EvOpenCallback None => true
  | EvSerialError _ | EvSerialClose => false
  | _ => serialConnected s
  end.
Proof. apply step_the_serialConnected. Qed.

Lemma step_serialBuffer cfg e s :
  isData e = false ->
  serialBuffer (state_of (step cfg e) s) = serialBuffer s.
Proof.
  intros H. rewrite step_state_eq.
  destruct e as [[m|]| | | | | | | | | | |]; unfold step_state;
    try discriminate; try reflexivity.
  - rewrite startPolling_state.
    cbn [serialBuffer set_ports set_pollTimer set_nextTimer set_intervals].
    now destruct (startWebSocketServer_link cfg (set_serialConnected true s))
      as (_ & _ & _ & -> & _).
  - cbn [serialBuffer set_timeouts].
    now destruct (stopPolling_link (set_serialConnected false s))
      as (_ & -> & _).
  - cbn [serialBuffer set_timeouts].
    now destruct (stopPolling_link (set_serialConnected false s))
      as (_ & -> & _).
  - now destruct (timeouts s).
  - destruct (wss s); [|reflexivity].
    match goal with
    | |- context [set_clients ?l ?s'] =>
        destruct (set_clients_link l s') as (_ & _ & _ & -> & _)
    end.
    cbn [serialBuffer set_nextClient].
    match goal with
    | |- context [set_clients ?l ?s'] =>
        now destruct (set_clients_link l s') as (_ & _ & _ & -> & _)
    end.
  - now destruct (set_clients_link (update_client c closing (the_clients s)) s)
      as (_ & _ & _ & -> & _).
  - destruct (find_client c (the_clients s)); [|reflexivity].
    match goal with
    | |- context [set_clients ?l ?s'] =>
        now destruct (set_clients_link l s') as (_ & _ & _ & -> & _)
    end.
Qed.

(** X6.  The unterminated residual in [serialBuffer] is touched by
    serial data only: over any run of events without a data event, link
    errors, closes, retries and reopenings included, the buffer is kept
    as it is, so what was retained before the link was lost is joined to
    the first data after it is back. *)
Theorem buffer_survives_reconnect cfg evs : forall s,
  existsb isData evs = false ->
  serialBuffer (state_of (run cfg evs) s) = serialBuffer s.
Proof.
  induction evs as [|e evs IH]; intros s H.
  - reflexivity.
  - simpl in H. apply orb_false_iff in H as [He Hevs].
    now rewrite run_cons, IH, step_serialBuffer.
Qed.

Lemma buffer_survives_reconnect_witness :
  serialBuffer
    (state_of
       (run example_config
          [EvSerialClose; EvTimeout; EvOpenCallback (Some (js "busy"));
           EvTimeout; EvOpenCallback None])
       (state_of (step example_config (EvSerialData (js "1407")))
          one_client)) =
  serialBuffer
    (state_of (step example_config (EvSerialData (js "1407"))) one_client).
Proof.
  apply (@buffer_survives_reconnect example_config
           [EvSerialClose; EvTimeout; EvOpenCallback (Some (js "busy"));
            EvTimeout; EvOpenCallback None]).
  reflexivity.
Defined.

Lemma step_timeouts cfg e s :
  timeouts (state_of (step cfg e) s) =
  match e with
  | EvOpenCallback (Some _) | EvSerialError _ | EvSerialClose =>
      timeouts s ++ [retry]
  | EvTimeout => tl (timeouts s)
  | _ => timeouts s
  end.
Proof.
  rewrite step_state_eq.
  destruct e as [[m|]| | | | | | | | | | |]; unfold step_state;
    try reflexivity.
  - rewrite startPolling_state.
    cbn [timeouts set_ports set_pollTimer set_nextTimer set_intervals].
    now destruct (startWebSocketServer_link cfg (set_serialConnected true s))
      as (_ & _ & _ & _ & -> & _).
  - destruct (timeouts s) eqn:E; [exact E | reflexivity].
  - destruct (wss s); [|reflexivity].
    match goal with
    | |- context [set_clients ?l ?s'] =>
        destruct (set_clients_link l s') as (_ & _ & _ & _ & -> & _)
    end.
    cbn [timeouts set_nextClient].
    match goal with
    | |- context [set_clients ?l ?s'] =>
        now destruct (set_clients_link l s') as (_ & _ & _ & _ & -> & _)
    end.
  - now destruct (set_clients_link (update_client c closing (the_clients s)) s)
      as (_ & _ & _ & _ & -> & _).
  - destruct (find_client c (the_clients s)); [|reflexivity].
    match goal with
    | |- context [set_clients ?l ?s'] =>
        now destruct (set_clients_link l s') as (_ & _ & _ & _ & -> & _)
    end.
Qed.

(** X7.  In every state that the event loop reaches every pending
    timeout is a retry of the serial open with the fixed delay of
    5000 ms: the delay never grows and nothing else is ever scheduled. *)
Theorem retries_have_fixed_delay cfg evs :
  Forall (fun t => t = retry) (timeouts (after cfg evs)).
Proof.
  unfold after.
  assert (H : Forall (fun t => t = retry) (timeouts (boot cfg)))
    by constructor.
  revert H. generalize (boot cfg).
  induction evs as [|e evs IH]; intros s H.
  - exact H.
  - rewrite run_cons. apply IH. rewrite step_timeouts.
    destruct e as [[m|]| | | | | | | | | | |]; try exact H;
      try (apply Forall_app; split; [exact H | now constructor]).
    destruct H; [constructor | assumption].
Qed.

(* ================================================================= *)
(** ** Losing and regaining the link *)

(** X8.  In every state that the event loop reaches, the error listener
    of the link sets the link state to not connected, stops the poll
    timer, sends [[STATUS] Serial error: ] followed by the text of the
    error to every open authenticated socket and to no other, and
    schedules one retry of the serial open, 5000 ms away, after those
    already pending.  From then on, as long as no open of the link
    succeeds, nothing is written to the serial link. *)
Theorem serial_error_disconnects cfg evs message later :
  existsb isReconnect later = false ->
  serialConnected
    (state_of (step cfg (EvSerialError message)) (after cfg evs)) = false
  /\ pollTimer
       (state_of (step cfg (EvSerialError message)) (after cfg evs)) = None
  /\ intervals
       (state_of (step cfg (EvSerialError message)) (after cfg evs)) = []
  /\ output_of (step cfg (EvSerialError message)) (after cfg evs) =
     Console ERROR (js "Serial port error: " ++ message)
     :: map (fun x => WsSend (cid x) (js "[STATUS] Serial error: " ++ message))
          (filter (eligible cfg None) (the_clients (after cfg evs)))
     ++ [Console LOG (js "Reconnecting to serial port in 5 seconds...")]
  /\ timeouts
       (state_of (step cfg (EvSerialError message)) (after cfg evs)) =
     timeouts (after cfg evs) ++ [retry]
  /\ serialWrites
       (output_of (run cfg later)
          (state_of (step cfg (EvSerialError message)) (after cfg evs))) = [].
Proof.
  intros Hlater. pose proof (after_Inv cfg evs) as HI.
  set (s := after cfg evs) in *.
  assert (Hc : serialConnected
                 (state_of (step cfg (EvSerialError message)) s) = false)
    by now rewrite step_the_serialConnected.
  destruct (stopPolling_poll (set_serialConnected false s) (inv_poll HI))
    as [Hp Hi].
  split; [exact Hc|]. unfold step at 1 2 3 4.
  rewrite onSerialError_state, onSerialError_output.
  cbn [pollTimer intervals timeouts set_timeouts].
  rewrite Hp, Hi. unfold broadcast_out.
  rewrite (open_filter_eligible None HI).
  repeat (split; [reflexivity|]).
  now apply disconnected_run.
Qed.

Lemma serial_error_disconnects_witness :
  serialWrites
    (output_of
       (run example_config
          [EvInterval 0; EvWsMessage 1 (js "=S1"); EvSerialClose; EvTimeout])
       (state_of (step example_config (EvSerialError (js "EIO")))
          (after example_config
             [EvOpenCallback None;
              EvWsConnection (Some (js "::ffff:192.168.1.20"))
                (Some (js "secret"));
              EvWsConnection (Some (js "192.168.1.21"))
                (Some (js "secret"))]))) = [].
Proof.
  apply (@serial_error_disconnects example_config
           [EvOpenCallback None;
            EvWsConnection (Some (js "::ffff:192.168.1.20"))
              (Some (js "secret"));
            EvWsConnection (Some (js "192.168.1.21")) (Some (js "secret"))]
           (js "EIO")
           [EvInterval 0; EvWsMessage 1 (js "=S1"); EvSerialClose;
            EvTimeout]).
  reflexivity.
Defined.

(** X9.  For a port of the client server below 65536 and a baud rate
    below [2^53]: in every state that the event loop reaches, the
    callback of a successful open sets the link state to connected,
    starts polling
    with a fresh interval that is the only live one, creates the client
    server if there is none, sends [[STATUS] Serial connected] to every
    open authenticated socket and to no other, and leaves the pending
    retries as they are: a retry that is still pending is not
    cancelled. *)
Theorem serial_open_connects cfg evs :
  (WS_PORT cfg < 65536)%N ->
  (SERIAL_BAUDRATE cfg < 2 ^ 53)%N ->
  serialConnected
    (state_of (step cfg (EvOpenCallback None)) (after cfg evs)) = true
  /\ pollTimer (state_of (step cfg (EvOpenCallback None)) (after cfg evs)) =
     Some (nextTimer (after cfg evs))
  /\ intervals (state_of (step cfg (EvOpenCallback None)) (after cfg evs)) =
     [{| timer := nextTimer (after cfg evs); period := POLL_INTERVAL cfg |}]
  /\ output_of (step cfg (EvOpenCallback None)) (after cfg evs) =
     Console LOG (js "Serial port " ++ SERIAL_PORT cfg
                  ++ js " opened successfully at "
                  ++ numberToString (SERIAL_BAUDRATE cfg)
                  ++ js " 8N1" ++ [LF])
     :: match wss (after cfg evs) with
        | Some _ => []
        | None =>
            [NewWebSocketServer (WS_PORT cfg);
             Console LOG (js "WebSocket Server started on port "
                          ++ numberToString (WS_PORT cfg))]
        end
     ++ map (fun x => WsSend (cid x) (js "[STATUS] Serial connected"))
          (filter (eligible cfg None) (the_clients (after cfg evs)))
  /\ timeouts (state_of (step cfg (EvOpenCallback None)) (after cfg evs)) =
     timeouts (after cfg evs).
Proof.
  intros _ _. pose proof (after_Inv cfg evs) as HI.
  destruct (after_PollLink cfg evs) as [Hi _].
  set (s := after cfg evs) in *.
  rewrite step_output, step_timeouts, step_the_serialConnected.
  rewrite step_state_eq. unfold step_state, step_out, broadcast_out.
  rewrite (open_filter_eligible None HI), startPolling_state.
  cbn [intervals pollTimer set_ports set_pollTimer set_nextTimer set_intervals].
  destruct (startWebSocketServer_link cfg (set_serialConnected true s))
    as (-> & -> & _ & _ & _ & ->).
  cbn [intervals pollTimer nextTimer set_serialConnected].
  rewrite Hi.
  repeat split.
  destruct (pollTimer s); simpl; now rewrite ?Nat.eqb_refl.
Qed.

Lemma serial_open_connects_witness :
  serialConnected
    (state_of (step example_config (EvOpenCallback None))
       (after example_config [EvOpenCallback (Some (js "Access denied"));
                              EvTimeout])) = true.
Proof.
  apply (@serial_open_connects example_config
           [EvOpenCallback (Some (js "Access denied")); EvTimeout]);
    vm_compute; reflexivity.
Defined.

Lemma step_gateway cfg e s (b : bool) :
  match wss s with
  | Some w => b = true /\ port w = WS_PORT cfg
  | None => b = false
  end ->
  match wss (state_of (step cfg e) s) with
  | Some w => b || isReconnect e = true /\ port w = WS_PORT cfg
  | None => b || isReconnect e = false
  end.
Proof.
  intros H. rewrite step_state_eq.
  assert (K : forall l,
    match wss (set_clients l s) with
    | Some w => b = true /\ port w = WS_PORT cfg
    | None => b = false
    end).
  { intros l. unfold set_clients.
    destruct (wss s) as [w|] eqn:E; [|now rewrite E]. exact H. }
  destruct e as [[m|]| | | | | | | | | | |]; unfold step_state;
    cbn [isReconnect]; rewrite ?orb_false_r; try exact H; try apply K.
  - rewrite startPolling_state, startWebSocketServer_state.
    cbn [wss set_ports set_pollTimer set_nextTimer set_intervals set_serialConnected].
    rewrite orb_true_r.
    destruct (wss s) as [w|] eqn:E;
      cbn [wss set_wss set_serialConnected port]; rewrite ?E.
    + split; [reflexivity | apply H].
    + split; reflexivity.
  - rewrite stopPolling_state. cbn [pollTimer set_serialConnected].
    now destruct (pollTimer s).
  - rewrite stopPolling_state. cbn [pollTimer set_serialConnected].
    now destruct (pollTimer s).
  - now destruct (timeouts s).
  - destruct (wss s) as [w|] eqn:E; [|now rewrite E].
    unfold set_clients. cbn [wss set_nextClient]. rewrite E.
    cbn [wss set_wss port]. exact H.
  - destruct (find_client c (the_clients s)); [apply K | exact H].
Qed.

(** X10.  For a configured port below 65536, the client server exists
    exactly from the first successful open of the link on, and it
    listens on the configured port: before the link was opened once no
    client can be connected. *)
Theorem gateway_exists_once_link_opened cfg evs :
  (WS_PORT cfg < 65536)%N ->
  match wss (after cfg evs) with
  | Some w => existsb isReconnect evs = true /\ port w = WS_PORT cfg
  | None => existsb isReconnect evs = false
  end.
Proof.
  intros _. unfold after.
  assert (G : forall evs s b,
    match wss s with
    | Some w => b = true /\ port w = WS_PORT cfg
    | None => b = false
    end ->
    match wss (state_of (run cfg evs) s) with
    | Some w => b || existsb isReconnect evs = true /\ port w = WS_PORT cfg
    | None => b || existsb isReconnect evs = false
    end).
  { clear evs. induction evs as [|e evs IH]; intros s b H.
    - simpl. now rewrite orb_false_r.
    - rewrite run_cons. simpl existsb. rewrite orb_assoc.
      apply IH. now apply step_gateway. }
  apply (G evs (boot cfg) false). reflexivity.
Qed.

Lemma gateway_exists_once_link_opened_witness :
  match
    wss (after example_config
           [EvOpenCallback (Some (js "Access denied")); EvTimeout;
            EvOpenCallback None])
  with
  | Some w =>
      existsb isReconnect
        [EvOpenCallback (Some (js "Access denied")); EvTimeout;
         EvOpenCallback None] = true
      /\ port w = WS_PORT example_config
  | None =>
      existsb isReconnect
        [EvOpenCallback (Some (js "Access denied")); EvTimeout;
         EvOpenCallback None] = false
  end.
Proof.
  apply (@gateway_exists_once_link_opened example_config
           [EvOpenCallback (Some (js "Access denied")); EvTimeout;
            EvOpenCallback None]).
  vm_compute. reflexivity.
Defined.

(** X11.  One run of the callback of a failed open, of the error
    listener or of the close listener, followed by the firing of a
    retry, for a baud rate below [2^53]: whatever the state, the run
    adds one retry, the oldest pending retry is consumed, and the open
    of the configured port at the configured baud rate is attempted
    again, after what the run itself put out. *)
Theorem failure_then_retry_reopens cfg f s :
  (SERIAL_BAUDRATE cfg < 2 ^ 53)%N ->
  timeouts (state_of (run cfg [failure_event f; EvTimeout]) s) =
  tl (timeouts s ++ [retry])
  /\ output_of (run cfg [failure_event f; EvTimeout]) s =
     output_of (step cfg (failure_event f)) s ++ open_attempt cfg.
Proof.
  intros _. rewrite !run_output_cons, !run_cons.
  change (state_of (run cfg []) ?x) with x.
  change (output_of (run cfg []) ?x) with (@nil Effect).
  rewrite app_nil_r, !step_output, step_timeouts, failure_timeouts. split.
  - reflexivity.
  - f_equal. unfold step_out. rewrite failure_timeouts.
    now destruct (timeouts s).
Qed.

Lemma failure_then_retry_reopens_witness :
  timeouts
    (state_of (run example_config [failure_event CloseEvent; EvTimeout])
       one_client) =
  tl (timeouts one_client ++ [retry]).
Proof.
  apply (@failure_then_retry_reopens example_config CloseEvent one_client).
  vm_compute. reflexivity.
Defined.

(* ================================================================= *)
(** ** What the clients are sent *)

Lemma sent_app o1 o2 : sent (o1 ++ o2) = sent o1 ++ sent o2.
Proof. apply flat_map_app. Qed.

Lemma sent_broadcast s message sender :
  sent (broadcast_out s message sender) =
  map (fun _ => message)
    (filter (fun x => notSender x sender && isOpen (readyState x))
       (the_clients s)).
Proof.
  unfold broadcast_out.
  induction (filter (fun x => notSender x sender && isOpen (readyState x))
               (the_clients s)) as [|x l IH]; simpl; [reflexivity|].
  now rewrite IH.
Qed.

Lemma sent_broadcast_Forall (P : jsstring -> Prop) s message sender :
  P message -> Forall P (sent (broadcast_out s message sender)).
Proof.
  intros H. rewrite sent_broadcast. apply Forall_map.
  apply Forall_forall. intros; exact H.
Qed.

Lemma sent_debug cfg msg : sent (debug_out cfg msg) = [].
Proof. unfold debug_out. now destruct (DEBUG cfg). Qed.

Lemma sent_overflow r : sent (overflow_out r) = [].
Proof. unfold overflow_out. now destruct (1024 <? List.length r). Qed.

#[local] Arguments isWhiteSpace : simpl never.

Lemma trimStart_split s :
  exists ws, s = ws ++ trimStart s.
Proof.
  induction s as [|c s [ws IH]]; cbn [trimStart].
  - now exists [].
  - destruct (isWhiteSpace c).
    + exists (c :: ws). cbn [app]. now f_equal.
    + now exists [].
Qed.

Lemma trimStart_hd s c r : trimStart s = c :: r -> isWhiteSpace c = false.
Proof.
  induction s as [|a s IH]; cbn [trimStart]; [discriminate|].
  destruct (isWhiteSpace a) eqn:E; [exact IH|].
  intros H. injection H as <- _. exact E.
Qed.

Lemma trimStart_Forall (P : N -> Prop) s :
  Forall P s -> Forall P (trimStart s).
Proof.
  intros H. destruct (trimStart_split s) as [ws E].
  rewrite E in H. now apply Forall_app in H.
Qed.

Lemma trim_Forall (P : N -> Prop) s : Forall P s -> Forall P (trim s).
Proof.
  intros H. unfold trim, trimEnd.
  now apply Forall_rev, trimStart_Forall, Forall_rev, trimStart_Forall.
Qed.

Lemma trimEnd_split s : exists ws, s = trimEnd s ++ ws.
Proof.
  unfold trimEnd. destruct (trimStart_split (rev s)) as [ws E].
  exists (rev ws). rewrite <- rev_app_distr, <- E. now rewrite rev_involutive.
Qed.

Lemma last_rev (l : jsstring) d : last (rev l) d = hd d l.
Proof.
  destruct l as [|c l]; [reflexivity|].
  simpl. now rewrite last_last.
Qed.

Lemma trim_Frame line :
  Forall (fun ch => ch <> CR /\ ch <> LF) line ->
  (0 <? List.length (trim line)) = true ->
  Frame (trim line).
Proof.
  intros Hline Hlen. apply Nat.ltb_lt in Hlen.
  split; [|split; [|split]].
  - intros E. rewrite E in Hlen. cbn [List.length] in Hlen. lia.
  - now apply trim_Forall.
  - unfold trim in *. destruct (trimEnd_split (trimStart line)) as [ws E].
    destruct (trimEnd (trimStart line)) as [|c r] eqn:T;
      [cbn [List.length] in Hlen; lia|].
    cbn [hd]. cbn [app] in E. now apply trimStart_hd in E.
  - unfold trim, trimEnd in *. rewrite last_rev.
    destruct (trimStart (rev (trimStart line))) as [|c r] eqn:T;
      [cbn [rev List.length] in Hlen; lia|].
    cbn [hd]. now apply trimStart_hd in T.
Qed.

Lemma complete_lines_clean text :
  Forall (Forall (fun ch => ch <> CR /\ ch <> LF)) (complete_lines text).
Proof.
  pose proof (split_Forall LF (replaceCR_clean text)) as Hcr.
  pose proof (split_segments_free LF (replaceCR text)) as Hlf.
  rewrite split_lines in Hcr, Hlf.
  apply Forall_app in Hcr as [Hcr _]. apply Forall_app in Hlf as [Hlf _].
  rewrite Forall_forall in *. intros seg Hseg.
  specialize (Hcr seg Hseg). specialize (Hlf seg Hseg).
  rewrite Forall_forall in *. intros ch Hch. split; auto.
Qed.

Lemma sent_frames cfg s lines :
  Forall (Forall (fun ch => ch <> CR /\ ch <> LF)) lines ->
  Forall Frame (sent (flat_map (frame_out cfg s) lines)).
Proof.
  induction 1 as [|l lines Hl _ IH]; simpl.
  - constructor.
  - rewrite sent_app. apply Forall_app. split; [|exact IH].
    unfold frame_out. destruct (0 <? List.length (trim l)) eqn:E;
      [|constructor].
    rewrite sent_app, sent_debug. apply sent_broadcast_Forall.
    now apply trim_Frame.
Qed.

(** X12.  Whatever the state and the chunk, every line that the data
    listener sends to a client is a proper frame: it is not empty, holds
    no CR and no LF, and has no white space at either end. *)
Theorem data_listener_sends_frames cfg data s :
  Forall Frame (sent (output_of (onSerialData cfg data) s)).
Proof.
  rewrite onSerialData_output, !sent_app, sent_debug, sent_overflow.
  rewrite app_nil_r. apply sent_frames, complete_lines_clean.
Qed.

(** X13.  Whatever the state and the event, what is sent to clients is a
    status line of the link or a proper frame of serial data, and only a
    successful open, an error, a close or data of the link send
    anything: a payload received from one client is never passed on to
    another, and a connecting or leaving client is told nothing. *)
Theorem clients_get_status_and_frames_only cfg e s :
  Forall ClientLine (sent (output_of (step cfg e) s))
  /\ match e with
     | EvOpenCallback None | EvSerialError _ | EvSerialClose
     | EvSerialData _ => True
     | _ => sent (output_of (step cfg e) s) = []
     end.
Proof.
  rewrite step_output.
  destruct e as [[m|]| | | | | | | | | | |]; unfold step_out.
  - split; [constructor | reflexivity].
  - split; [|exact I].
    change (Console LOG ?t :: ?o) with ([Console LOG t] ++ o).
    rewrite !sent_app.
    apply Forall_app; split; [constructor|]. apply Forall_app; split.
    + destruct (wss s); constructor.
    + apply sent_broadcast_Forall. now left.
  - split; [|exact I].
    change (Console ERROR ?t :: ?o) with ([Console ERROR t] ++ o).
    rewrite !sent_app.
    apply Forall_app; split; [constructor|]. apply Forall_app; split.
    + apply sent_broadcast_Forall. right. right. left. now exists message.
    + constructor.
  - split; [|exact I].
    change (Console WARN ?t :: ?o) with ([Console WARN t] ++ o).
    rewrite !sent_app. apply Forall_app. split; [constructor|].
    apply sent_broadcast_Forall. right. now left.
  - split; [|exact I].
    rewrite !sent_app, sent_debug, sent_overflow, app_nil_r.
    eapply Forall_impl; [|apply sent_frames, complete_lines_clean].
    intros m Hm. now repeat right.
  - destruct err; split; try constructor; reflexivity.
  - destruct (timeouts s); split; try constructor; reflexivity.
  - unfold poll_out.
    destruct (isLive id s), (serialConnected s);
      split; try constructor; reflexivity.
  - unfold poll_out.
    destruct (wss s), (strictNotEqual token0 (AUTH_TOKEN cfg)),
      (serialConnected s); split; try constructor; reflexivity.
  - destruct (find_client c (the_clients s)) as [x|];
      [|split; [constructor | reflexivity]].
    destruct (listening x), (serialConnected s);
      split; try constructor; reflexivity.
  - split; [constructor | reflexivity].
  - destruct (find_client c (the_clients s)) as [x|];
      [|split; [constructor | reflexivity]].
    destruct (listening x); [|split; [constructor | reflexivity]].
    rewrite sent_debug. split; [constructor | reflexivity].
  - easy.
Qed.

(* ================================================================= *)
(** ** The buffer *)

Lemma capped_length r : List.length (capped r) <= 1024.
Proof.
  unfold capped. destruct (Nat.ltb_spec 1024 (List.length r)); simpl; lia.
Qed.

Lemma capped_Forall (P : N -> Prop) r : Forall P r -> Forall P (capped r).
Proof.
  intros H. unfold capped.
  destruct (1024 <? List.length r); [constructor | exact H].
Qed.

Lemma residual_CR_LF text :
  Forall (fun ch => ch <> CR /\ ch <> LF) (residual text).
Proof.
  pose proof (residual_clean text) as Hcr.
  pose proof (residual_no_LF text) as Hlf.
  rewrite Forall_forall in *. intros ch Hch. split; auto.
Qed.

Lemma step_buffer_ok cfg e s :
  List.length (serialBuffer s) <= 1024
  /\ Forall (fun ch => ch <> CR /\ ch <> LF) (serialBuffer s) ->
  List.length (serialBuffer (state_of (step cfg e) s)) <= 1024
  /\ Forall (fun ch => ch <> CR /\ ch <> LF)
       (serialBuffer (state_of (step cfg e) s)).
Proof.
  intros H. destruct (isData e) eqn:E.
  - destruct e; try discriminate.
    rewrite step_state_eq. unfold step_state.
    cbn [serialBuffer set_serialBuffer].
    split; [apply capped_length | apply capped_Forall, residual_CR_LF].
  - now rewrite step_serialBuffer.
Qed.

Lemma after_buffer_ok cfg evs :
  List.length (serialBuffer (after cfg evs)) <= 1024
  /\ Forall (fun ch => ch <> CR /\ ch <> LF) (serialBuffer (after cfg evs)).
Proof.
  unfold after.
  assert (H : List.length (serialBuffer (boot cfg)) <= 1024
              /\ Forall (fun ch => ch <> CR /\ ch <> LF)
                   (serialBuffer (boot cfg))).
  { rewrite boot_globals. split; [simpl; lia | constructor]. }
  revert H. generalize (boot cfg).
  induction evs as [|e evs IH]; intros s H.
  - exact H.
  - rewrite run_cons. now apply IH, step_buffer_ok.
Qed.

(** X14.  In every state that the event loop reaches the buffer of
    unterminated serial data holds at most 1024 code units and neither a
    CR nor an LF: memory stays bounded whatever the device sends. *)
Theorem buffer_bounded_and_clean cfg evs :
  List.length (serialBuffer (after cfg evs)) <= 1024
  /\ Forall (fun ch => ch <> CR /\ ch <> LF) (serialBuffer (after cfg evs)).
Proof. apply after_buffer_ok. Qed.

Lemma residual_unterminated text :
  Forall (fun c => c <> LF) text -> residual text = replaceCR text.
Proof.
  intros H. unfold residual. rewrite split_free; [reflexivity|].
  unfold replaceCR. apply Forall_forall. intros c Hc.
  apply filter_In in Hc as [Hc _].
  rewrite Forall_forall in H. now apply H.
Qed.

Lemma after_snoc cfg evs e :
  state_of (step cfg e) (after cfg evs) = after cfg (evs ++ [e]).
Proof.
  unfold after, run. rewrite state_forEach_app.
  now rewrite state_forEach_cons.
Qed.

(** One run of the data listener on text without a line feed. *)
Lemma unterminated_run cfg evs data :
  Forall (fun c => c <> LF) data ->
  sent (output_of (step cfg (EvSerialData data)) (after cfg evs)) = []
  /\ serialBuffer (state_of (step cfg (EvSerialData data)) (after cfg evs)) =
     capped (serialBuffer (after cfg evs) ++ replaceCR data).
Proof.
  intros Hdata.
  destruct (after_buffer_ok cfg evs) as [_ Hb].
  set (s := after cfg evs) in *.
  assert (Hcr : Forall (fun c => c <> CR) (serialBuffer s))
    by (eapply Forall_impl; [|exact Hb]; now intros c [? ?]).
  assert (Hlf : Forall (fun c => c <> LF) (serialBuffer s ++ data)).
  { apply Forall_app. split; [|exact Hdata].
    eapply Forall_impl; [|exact Hb]. now intros c [? ?]. }
  rewrite step_output, step_state_eq. unfold step_out, step_state.
  cbn [serialBuffer set_serialBuffer].
  rewrite complete_lines_none, residual_unterminated by assumption.
  rewrite replaceCR_app, (replaceCR_id Hcr).
  simpl flat_map. now rewrite !sent_app, sent_debug, sent_overflow.
Qed.

(** As many runs as the port has data listeners. *)
Lemma unterminated_runs cfg data n : forall evs,
  Forall (fun c => c <> LF) data ->
  sent (output_of (run cfg (repeat (EvSerialData data) n)) (after cfg evs)) =
  [].
Proof.
  induction n as [|n IH]; intros evs Hdata.
  - reflexivity.
  - cbn [repeat]. rewrite run_output_cons, sent_app, after_snoc.
    rewrite IH by assumption.
    now destruct (unterminated_run cfg evs Hdata) as [-> _].
Qed.

(** X15.  In every state that the event loop reaches, a chunk whose text
    holds no line feed sends nothing to any client, however many data
    listeners the port that emits it has.  Each run of the data listener
    on such a chunk sends nothing and adds the text, carriage returns
    removed, to the buffer (which is cleared if that makes more than
    1024 code units).  A frame goes out only once its line feed has
    arrived. *)
Theorem unterminated_data_is_buffered cfg evs data :
  forallb (fun ch => negb (ch =? LF)%N) data = true ->
  sent (output_of (step cfg (EvSerialData data)) (after cfg evs)) = []
  /\ serialBuffer (state_of (step cfg (EvSerialData data)) (after cfg evs)) =
     capped (serialBuffer (after cfg evs) ++ replaceCR data)
  /\ (forall p chunk,
        toString chunk = data ->
        sent (output_of (happen cfg (Emit p (PortData chunk))) (after cfg evs)) =
        []).
Proof.
  intros Hdata. apply no_LF_Forall in Hdata.
  destruct (unterminated_run cfg evs Hdata) as [H1 H2].
  split; [exact H1 | split; [exact H2|]].
  intros p chunk E. rewrite happen_output. cbn [runsOf listenerRun].
  rewrite E. now apply unterminated_runs.
Qed.

Lemma unterminated_data_is_buffered_witness :
  sent
    (output_of (step example_config (EvSerialData (CR :: js "1407 ")))
       (after example_config
          [EvOpenCallback None;
           EvWsConnection (Some (js "10.0.0.2")) (Some (js "secret"));
           EvSerialData (js "ok" ++ [LF] ++ js "f=")])) = []
  /\ serialBuffer
       (state_of (step example_config (EvSerialData (CR :: js "1407 ")))
          (after example_config
             [EvOpenCallback None;
              EvWsConnection (Some (js "10.0.0.2")) (Some (js "secret"));
              EvSerialData (js "ok" ++ [LF] ++ js "f=")])) =
     capped
       (serialBuffer
          (after example_config
             [EvOpenCallback None;
              EvWsConnection (Some (js "10.0.0.2")) (Some (js "secret"));
              EvSerialData (js "ok" ++ [LF] ++ js "f=")])
        ++ replaceCR (CR :: js "1407 ")).
Proof.
  pose proof (@unterminated_data_is_buffered example_config
                [EvOpenCallback None;
                 EvWsConnection (Some (js "10.0.0.2")) (Some (js "secret"));
                 EvSerialData (js "ok" ++ [LF] ++ js "f=")]
                (CR :: js "1407 ")) as H.
  assert (L : forallb (fun ch => negb (ch =? LF)%N) (CR :: js "1407 ") = true)
    by reflexivity.
  destruct (H L) as [H1 [H2 _]]. split; assumption.
Defined.

Lemma consoleLines_app o1 o2 :
  consoleLines (o1 ++ o2) = consoleLines o1 ++ consoleLines o2.
Proof. apply flat_map_app. Qed.

Lemma consoleLines_broadcast s message sender :
  consoleLines (broadcast_out s message sender) = [].
Proof.
  unfold broadcast_out.
  induction (filter (fun x => notSender x sender && isOpen (readyState x))
               (the_clients s)); [reflexivity | assumption].
Qed.

Lemma consoleLines_frames cfg s lines :
  consoleLines (flat_map (frame_out cfg s) lines) =
  if DEBUG cfg
  then map (fun l => (LOG, js "COM->WS | " ++ l)) (frames_of lines)
  else [].
Proof.
  induction lines as [|l ls IH].
  - now destruct (DEBUG cfg).
  - cbn [flat_map]. rewrite consoleLines_app, IH.
    unfold frame_out, frames_of. cbn [map filter].
    destruct (0 <? List.length (trim l)).
    + rewrite consoleLines_app, consoleLines_broadcast, app_nil_r.
      unfold debug_out. now destruct (DEBUG cfg).
    + reflexivity.
Qed.

(** X16.  What the data listener writes to the console, whatever the
    state: with the debug flag set, the raw chunk and then each frame
    once, however many clients there are; without it, nothing of the
    data; and in either case the overflow warning when the residual is
    discarded. *)
Theorem data_listener_console cfg data s :
  consoleLines (output_of (onSerialData cfg data) s) =
  (if DEBUG cfg
   then (LOG, js "RAW COM DATA: " ++ data)
        :: map (fun l => (LOG, js "COM->WS | " ++ l))
             (frames_of (complete_lines (serialBuffer s ++ data)))
   else [])
  ++ (if 1024 <? List.length (residual (serialBuffer s ++ data))
      then [(WARN, js "Serial buffer overflow, clearing incomplete data")]
      else []).
Proof.
  rewrite onSerialData_output, !consoleLines_app, consoleLines_frames.
  unfold debug_out, overflow_out.
  destruct (DEBUG cfg),
    (1024 <? List.length (residual (serialBuffer s ++ data)));
    reflexivity.
Qed.

(* ================================================================= *)
(** ** Who gets in *)

(** X17.  In every state that the event loop reaches, a message event
    for a name under which no socket presented the configured token
    changes nothing and puts nothing out: only clients that passed the
    token check can have a payload written to the serial link. *)
Theorem only_authenticated_payloads_forwarded cfg evs c message :
  existsb (fun x => (cid x =? c) && authenticated cfg x)
    (the_clients (after cfg evs)) = false ->
  exec (step cfg (EvWsMessage c message)) (after cfg evs) =
  (after cfg evs, []).
Proof.
  intros H. pose proof (inv_listening (after_Inv cfg evs)) as HL.
  set (s := after cfg evs) in *.
  rewrite exec_pair, step_state_eq, step_output.
  unfold step_state, step_out.
  destruct (find_client c (the_clients s)) as [x|] eqn:F; [|reflexivity].
  apply find_some in F as [Hin Hx].
  rewrite Forall_forall in HL. specialize (HL x Hin).
  destruct (listening x); [|reflexivity].
  exfalso. assert (E : existsb (fun x => (cid x =? c) && authenticated cfg x)
                         (the_clients s) = true).
  { apply existsb_exists. exists x. split; [exact Hin|].
    now rewrite Hx, HL. }
  congruence.
Qed.

Lemma only_authenticated_payloads_forwarded_witness :
  exec (step example_config (EvWsMessage 1 (js "=T9")))
    (after example_config
       [EvOpenCallback None;
        EvWsConnection (Some (js "10.0.0.2")) (Some (js "secret"));
        EvWsConnection (Some (js "10.0.0.9")) None]) =
  (after example_config
     [EvOpenCallback None;
      EvWsConnection (Some (js "10.0.0.2")) (Some (js "secret"));
      EvWsConnection (Some (js "10.0.0.9")) None], []).
Proof.
  apply (@only_authenticated_payloads_forwarded example_config
           [EvOpenCallback None;
            EvWsConnection (Some (js "10.0.0.2")) (Some (js "secret"));
            EvWsConnection (Some (js "10.0.0.9")) None]
           1 (js "=T9")).
  reflexivity.
Defined.

Lemma no_token_rejects cfg tok :
  AUTH_TOKEN cfg = CfgUndefined \/ AUTH_TOKEN cfg = CfgOther ->
  strictNotEqual tok (AUTH_TOKEN cfg) = true.
Proof. intros [-> | ->]; now destruct tok. Qed.

Lemma step_NobodyIn cfg e s :
  AUTH_TOKEN cfg = CfgUndefined \/ AUTH_TOKEN cfg = CfgOther ->
  Inv cfg s -> NobodyIn s -> NobodyIn (state_of (step cfg e) s).
Proof.
  intros Hcfg HI H. unfold NobodyIn in *. rewrite step_the_clients.
  destruct e; try exact H.
  - rewrite connection_clients by apply (inv_fresh HI).
    rewrite no_token_rejects by assumption.
    destruct (wss s); [|constructor].
    apply Forall_app. split; [exact H|].
    constructor; [|constructor].
    split; [apply closing_not_open | now rewrite closing_listening].
  - simpl. apply update_client_Forall; [|exact H].
    intros x [_ Hx]. split; [apply closing_not_open|].
    now rewrite closing_listening.
  - simpl. now apply filter_Forall.
Qed.

Lemma nobody_open s sender :
  NobodyIn s ->
  filter (fun x => notSender x sender && isOpen (readyState x))
    (the_clients s) = [].
Proof.
  intros H. rewrite filter_ext_in with (g := fun _ => false);
    [apply filter_none|].
  intros x Hx. unfold NobodyIn in H. rewrite Forall_forall in H.
  destruct (H x Hx) as [-> _]. apply andb_false_r.
Qed.

Lemma nobody_sent cfg e s :
  NobodyIn s -> sent (step_out cfg e s) = [].
Proof.
  intros H.
  assert (B : forall m, sent (broadcast_out s m None) = []).
  { intros m. now rewrite sent_broadcast, nobody_open. }
  destruct e as [[m|]| | | | | | | | | | |]; unfold step_out.
  - reflexivity.
  - change (Console LOG ?t :: ?o) with ([Console LOG t] ++ o).
    rewrite !sent_app, B. now destruct (wss s).
  - change (Console ERROR ?t :: ?o) with ([Console ERROR t] ++ o).
    now rewrite !sent_app, B.
  - change (Console WARN ?t :: ?o) with ([Console WARN t] ++ o).
    now rewrite !sent_app, B.
  - assert (F : forall ls, sent (flat_map (frame_out cfg s) ls) = []).
    { induction ls as [|l ls IH]; [reflexivity|].
      cbn [flat_map]. rewrite sent_app, IH, app_nil_r. unfold frame_out.
      destruct (0 <? List.length (trim l)); [|reflexivity].
      now rewrite sent_app, sent_debug, B. }
    now rewrite !sent_app, sent_debug, sent_overflow, F.
  - now destruct err.
  - now destruct (timeouts s).
  - unfold poll_out. now destruct (isLive id s), (serialConnected s).
  - unfold poll_out.
    now destruct (wss s), (strictNotEqual token0 (AUTH_TOKEN cfg)),
      (serialConnected s).
  - destruct (find_client c (the_clients s)) as [x|]; [|reflexivity].
    now destruct (listening x), (serialConnected s).
  - reflexivity.
  - destruct (find_client c (the_clients s)) as [x|]; [|reflexivity].
    destruct (listening x); [apply sent_debug | reflexivity].
  - reflexivity.
Qed.

Lemma nobody_writes cfg e s :
  AUTH_TOKEN cfg = CfgUndefined \/ AUTH_TOKEN cfg = CfgOther ->
  NobodyIn s ->
  Forall (fun d => d = js "=R" ++ [CR; LF]) (serialWrites (step_out cfg e s)).
Proof.
  intros Hcfg H.
  destruct e as [[m|]| | | | | | | | | | |]; unfold step_out.
  - constructor.
  - change (Console LOG ?t :: ?o) with ([Console LOG t] ++ o).
    rewrite !serialWrites_app, serialWrites_broadcast.
    destruct (wss s); constructor.
  - change (Console ERROR ?t :: ?o) with ([Console ERROR t] ++ o).
    rewrite !serialWrites_app, serialWrites_broadcast. constructor.
  - change (Console WARN ?t :: ?o) with ([Console WARN t] ++ o).
    rewrite !serialWrites_app, serialWrites_broadcast. constructor.
  - rewrite !serialWrites_app, serialWrites_debug, serialWrites_overflow,
      serialWrites_frames. constructor.
  - destruct err; constructor.
  - destruct (timeouts s); constructor.
  - unfold poll_out.
    destruct (isLive id s), (serialConnected s); repeat constructor.
  - rewrite no_token_rejects by assumption. destruct (wss s); constructor.
  - destruct (find_client c (the_clients s)) as [x|] eqn:F; [|constructor].
    apply find_some in F as [Hin _].
    unfold NobodyIn in H. rewrite Forall_forall in H.
    destruct (H x Hin) as [_ ->]. constructor.
  - constructor.
  - destruct (find_client c (the_clients s)) as [x|]; [|constructor].
    destruct (listening x); [|constructor].
    rewrite serialWrites_debug. constructor.
  - easy.
Qed.

(** X18.  When the configuration holds no auth token, or one that is not
    a string or [null], the gateway is shut: every connection is turned
    away whatever token it presents, so over the whole life of the
    process no socket is ever open or listening, nothing is ever sent to
    a client, and the only thing ever written to the serial link is the
    poll command. *)
Theorem no_token_configured_admits_nobody cfg evs :
  AUTH_TOKEN cfg = CfgUndefined \/ AUTH_TOKEN cfg = CfgOther ->
  NobodyIn (after cfg evs)
  /\ sent (output_of (process cfg evs) globals) = []
  /\ Forall (fun d => d = js "=R" ++ [CR; LF])
       (serialWrites (output_of (process cfg evs) globals)).
Proof.
  intros Hcfg.
  assert (G : forall evs s, Inv cfg s -> NobodyIn s ->
    NobodyIn (state_of (run cfg evs) s)
    /\ sent (output_of (run cfg evs) s) = []
    /\ Forall (fun d => d = js "=R" ++ [CR; LF])
         (serialWrites (output_of (run cfg evs) s))).
  { clear evs. induction evs as [|e evs IH]; intros s HI H.
    - repeat split; [exact H | constructor].
    - rewrite run_cons, run_output_cons, sent_app, serialWrites_app.
      rewrite step_output, nobody_sent by assumption.
      destruct (IH (state_of (step cfg e) s)) as (H1 & H2 & H3);
        [now apply step_Inv | now apply step_NobodyIn|].
      repeat split; [exact H1 | exact H2 |].
      apply Forall_app. split; [now apply nobody_writes | exact H3]. }
  unfold process, after.
  rewrite output_seq, sent_app, serialWrites_app, initSerialPort_output.
  change (state_of (initSerialPort cfg) globals) with (boot cfg).
  destruct (G evs (boot cfg) (boot_Inv cfg)) as (H1 & H2 & H3).
  { rewrite boot_globals. constructor. }
  repeat split; [exact H1 | exact H2 | exact H3].
Qed.

Lemma no_token_configured_admits_nobody_witness :
  sent
    (output_of
       (process unset_config
          [EvOpenCallback None; EvWsConnection (Some (js "10.0.0.2")) None;
           EvWsConnection (Some (js "10.0.0.2")) (Some (js "undefined"));
           EvSerialData (js "14074000" ++ [CR; LF]); EvWsMessage 0 (js "=S1");
           EvSerialClose])
       globals) = [].
Proof.
  apply (@no_token_configured_admits_nobody unset_config
           [EvOpenCallback None; EvWsConnection (Some (js "10.0.0.2")) None;
            EvWsConnection (Some (js "10.0.0.2")) (Some (js "undefined"));
            EvSerialData (js "14074000" ++ [CR; LF]);
            EvWsMessage 0 (js "=S1"); EvSerialClose]).
  left. reflexivity.
Defined.

(* ================================================================= *)
(** ** Sockets that left and sockets that joined *)

Lemma received_broadcast_not_open c message sender s :
  NotOpen c s -> received c (broadcast_out s message sender) = [].
Proof.
  intros [_ H]. unfold broadcast_out.
  rewrite received_sends, filter_filter.
  rewrite filter_ext_in with (g := fun _ => false);
    [now rewrite filter_none|].
  intros x Hx. rewrite Forall_forall in H. specialize (H x Hx).
  destruct (Nat.eqb_spec (cid x) c) as [E|]; [|reflexivity].
  rewrite (H E). simpl. apply andb_false_r.
Qed.

Lemma not_open_receives_nothing cfg c e s :
  NotOpen c s -> received c (step_out cfg e s) = [].
Proof.
  intros H.
  assert (F : forall ls, received c (flat_map (frame_out cfg s) ls) = []).
  { induction ls as [|l ls IH]; [reflexivity|].
    cbn [flat_map]. rewrite received_app, IH, app_nil_r. unfold frame_out.
    destruct (0 <? List.length (trim l)); [|reflexivity].
    now rewrite received_app, received_debug, received_broadcast_not_open. }
  destruct e as [[m|]| | | | | | | | | | |]; unfold step_out.
  - reflexivity.
  - change (Console LOG ?t :: ?o) with ([Console LOG t] ++ o).
    rewrite !received_app, received_broadcast_not_open by assumption.
    now destruct (wss s).
  - change (Console ERROR ?t :: ?o) with ([Console ERROR t] ++ o).
    now rewrite !received_app, received_broadcast_not_open.
  - change (Console WARN ?t :: ?o) with ([Console WARN t] ++ o).
    now rewrite !received_app, received_broadcast_not_open.
  - now rewrite !received_app, received_debug, received_overflow, F.
  - now destruct err.
  - now destruct (timeouts s).
  - unfold poll_out. now destruct (isLive id s), (serialConnected s).
  - unfold poll_out.
    now destruct (wss s), (strictNotEqual token0 (AUTH_TOKEN cfg)),
      (serialConnected s).
  - destruct (find_client c0 (the_clients s)) as [x|]; [|reflexivity].
    now destruct (listening x), (serialConnected s).
  - reflexivity.
  - destruct (find_client c0 (the_clients s)) as [x|]; [|reflexivity].
    destruct (listening x); [apply received_debug | reflexivity].
  - reflexivity.
Qed.

Lemma step_NotOpen cfg c e s :
  Inv cfg s -> NotOpen c s -> NotOpen c (state_of (step cfg e) s).
Proof.
  intros HI [Hc H]. pose proof (inv_fresh HI) as Hfr.
  split; rewrite ?step_the_clients, ?step_the_nextClient.
  - unfold step_nextClient. destruct e, (wss s); lia.
  - destruct e; try exact H.
    + rewrite connection_clients by assumption.
      destruct (wss s); [|constructor].
      apply Forall_app. split; [exact H|].
      constructor; [|constructor].
      rewrite newcomer_cid. intros E. lia.
    + simpl. apply update_client_Forall; [|exact H].
      intros x Hx _. apply closing_not_open.
    + simpl. now apply filter_Forall.
Qed.

(** X19.  A socket that has left the open state never gets anything
    again.  In every state that the event loop reaches, if the name [c]
    was given out and no socket of that name is open (it is closing,
    or was closed and removed), then over any later run of events
    nothing is sent to [c]: the state never returns to open and the name
    is not given out again. *)
Theorem left_socket_gets_nothing cfg evs c later :
  NotOpen c (after cfg evs) ->
  received c (output_of (run cfg later) (after cfg evs)) = [].
Proof.
  intros H. pose proof (after_Inv cfg evs) as HI.
  revert HI H. generalize (after cfg evs).
  induction later as [|e later IH]; intros s HI H.
  - reflexivity.
  - rewrite run_output_cons, received_app, step_output.
    rewrite not_open_receives_nothing by assumption.
    apply IH; [now apply step_Inv | now apply step_NotOpen].
Qed.

Lemma left_socket_gets_nothing_witness :
  received 0
    (output_of
       (run example_config
          [EvSerialData (js "14074000" ++ [LF]); EvSerialClose;
           EvWsClose 0; EvTimeout; EvOpenCallback None;
           EvWsConnection (Some (js "10.0.0.4")) (Some (js "secret"));
           EvSerialData (js "7100000" ++ [LF])])
       (after example_config
          [EvOpenCallback None;
           EvWsConnection (Some (js "10.0.0.2")) (Some (js "secret"));
           EvWsConnection (Some (js "10.0.0.3")) (Some (js "secret"));
           EvWsPeerClosing 0])) = [].
Proof.
  apply (@left_socket_gets_nothing example_config
           [EvOpenCallback None;
            EvWsConnection (Some (js "10.0.0.2")) (Some (js "secret"));
            EvWsConnection (Some (js "10.0.0.3")) (Some (js "secret"));
            EvWsPeerClosing 0]
           0).
  split.
  - vm_compute. lia.
  - vm_compute. repeat constructor; intros; try reflexivity; discriminate.
Defined.

Lemma filter_name_last n (l : list Client) x :
  Forall (fun y => cid y < n) l -> cid x = n ->
  filter (fun y => cid y =? n) (l ++ [x]) = [x].
Proof.
  intros Hl Hx. rewrite filter_app. simpl. rewrite Hx, Nat.eqb_refl.
  rewrite filter_ext_in with (g := fun _ => false);
    [now rewrite filter_none|].
  intros y Hy. rewrite Forall_forall in Hl. specialize (Hl y Hy).
  destruct (Nat.eqb_spec (cid y) n); [lia | reflexivity].
Qed.

(** X20.  A client that connects with the configured token takes part in
    the fan-out at once: in every state that the event loop reaches
    where the client server exists, the next run of the data listener
    sends its frames to the new socket, all of them and in order, the
    residual retained before it connected included. *)
Theorem new_client_joins_fanout cfg evs remoteAddress tok data :
  strictNotEqual tok (AUTH_TOKEN cfg) = false ->
  wss (after cfg evs) <> None ->
  received (nextClient (after cfg evs))
    (output_of (step cfg (EvSerialData data))
       (state_of (step cfg (EvWsConnection remoteAddress tok))
          (after cfg evs))) =
  frames_of (complete_lines (serialBuffer (after cfg evs) ++ data)).
Proof.
  intros Htok Hwss. pose proof (inv_fresh (after_Inv cfg evs)) as Hfr.
  set (s := after cfg evs) in *.
  assert (Hopen : isOpenClient (nextClient s)
                    (state_of (step cfg (EvWsConnection remoteAddress tok))
                       s) = true).
  { unfold isOpenClient.
    rewrite step_the_clients, connection_clients by assumption.
    rewrite Htok. destruct (wss s); [|contradiction].
    now rewrite filter_name_last. }
  unfold step at 1. rewrite onSerialData_received by exact Hopen.
  now rewrite step_serialBuffer.
Qed.

Lemma new_client_joins_fanout_witness :
  received 1
    (output_of
       (step example_config
          (EvSerialData (js "4000" ++ [CR; LF] ++ js " 7100000 " ++ [LF])))
       (state_of
          (step example_config
             (EvWsConnection (Some (js "10.0.0.3")) (Some (js "secret"))))
          (after example_config
             [EvOpenCallback None;
              EvWsConnection (Some (js "10.0.0.2")) (Some (js "secret"));
              EvSerialData (js "1407")]))) =
  frames_of
    (complete_lines
       (serialBuffer
          (after example_config
             [EvOpenCallback None;
              EvWsConnection (Some (js "10.0.0.2")) (Some (js "secret"));
              EvSerialData (js "1407")])
        ++ js "4000" ++ [CR; LF] ++ js " 7100000 " ++ [LF])).
Proof.
  apply (@new_client_joins_fanout example_config
           [EvOpenCallback None;
            EvWsConnection (Some (js "10.0.0.2")) (Some (js "secret"));
            EvSerialData (js "1407")]
           (Some (js "10.0.0.3")) (Some (js "secret"))
           (js "4000" ++ [CR; LF] ++ js " 7100000 " ++ [LF])).
  - reflexivity.
  - vm_compute. discriminate.
Defined.

Lemma startsWith_prefix p a : startsWith (p ++ a) p = true.
Proof.
  induction p as [|c p IH]; simpl.
  - now destruct a.
  - now rewrite N.eqb_refl, IH.
Qed.

(** X21.  The address shown in the log: an IPv4-mapped address
    [::ffff:a.b.c.d] is shown as [a.b.c.d], whatever follows the prefix;
    an address that does not start with [::ffff:] is shown as it is; a
    missing address is shown as [undefined]. *)
Theorem mapped_address_shown_plain a :
  show (remoteIp (Some (js "::ffff:" ++ a))) = a
  /\ (startsWith a (js "::ffff:") = false -> show (remoteIp (Some a)) = a)
  /\ show (remoteIp None) = js "undefined".
Proof.
  split; [|split].
  - unfold remoteIp. rewrite startsWith_prefix. reflexivity.
  - intros H. unfold remoteIp. now rewrite H, andb_false_r.
  - reflexivity.
Qed.

Lemma mapped_address_shown_plain_witness :
  show (remoteIp (Some (js "192.168.1.21"))) = js "192.168.1.21".
Proof.
  apply (proj1 (proj2 (mapped_address_shown_plain (js "192.168.1.21")))).
  reflexivity.
Defined.

(* ================================================================= *)
(** ** Clients side by side *)

Lemma message_step cfg c x message s :
  find_client c (the_clients s) = Some x ->
  listening x = true ->
  serialConnected s = true ->
  state_of (step cfg (EvWsMessage c message)) s = s
  /\ output_of (step cfg (EvWsMessage c message)) s =
     [SerialWrite (message ++ [CR; LF])].
Proof.
  intros F L C. rewrite step_state_eq, step_output.
  unfold step_state, step_out. now rewrite F, L, C.
Qed.

(** X22.  While the link is connected, the payloads of a client with
    listeners are written to the serial link one write each, in the order
    they arrive, each followed by CR LF, none merged, dropped or
    reordered, and the state stays as it is. *)
Theorem payloads_forwarded_in_order cfg c x messages s :
  find_client c (the_clients s) = Some x ->
  listening x = true ->
  serialConnected s = true ->
  exec (run cfg (map (EvWsMessage c) messages)) s =
  (s, map (fun m => SerialWrite (m ++ [CR; LF])) messages).
Proof.
  intros F L C. rewrite exec_pair.
  induction messages as [|m ms IH].
  - reflexivity.
  - simpl map. rewrite run_cons, run_output_cons.
    destruct (@message_step cfg c x m s F L C) as [-> ->].
    injection IH as -> ->. reflexivity.
Qed.

Lemma payloads_forwarded_in_order_witness :
  exec (run example_config
          (map (EvWsMessage 0) [js "=S1"; js ""; js "=R"]))
    one_client =
  (one_client,
   map (fun m => SerialWrite (m ++ [CR; LF])) [js "=S1"; js ""; js "=R"]).
Proof.
  apply (@payloads_forwarded_in_order example_config 0
           {| cid := 0; readyState := OPEN; token := Some (js "secret");
              ip := Some (js "192.168.1.20"); listening := true |}
           [js "=S1"; js ""; js "=R"] one_client);
    reflexivity.
Defined.

Lemma filter_name_update c c' f (l : list Client) :
  c <> c' -> (forall x, cid (f x) = cid x) ->
  filter (fun x => cid x =? c') (update_client c f l) =
  filter (fun x => cid x =? c') l.
Proof.
  intros Hc Hf. unfold update_client.
  induction l as [|x l IH]; [reflexivity|].
  cbn [map filter]. rewrite IH.
  destruct (Nat.eqb_spec (cid x) c) as [E|E]; [|reflexivity].
  rewrite Hf. destruct (Nat.eqb_spec (cid x) c'); [lia | reflexivity].
Qed.

Lemma filter_name_forget c c' (l : list Client) :
  c <> c' ->
  filter (fun x => cid x =? c') (filter (fun x => negb (cid x =? c)) l) =
  filter (fun x => cid x =? c') l.
Proof.
  intros Hc. rewrite filter_filter. apply filter_ext. intros x.
  destruct (Nat.eqb_spec (cid x) c'), (Nat.eqb_spec (cid x) c);
    try reflexivity; lia.
Qed.

Lemma open_client_below c s :
  Forall (fun x => cid x < nextClient s) (the_clients s) ->
  isOpenClient c s = true -> c < nextClient s.
Proof.
  intros Hfr H. unfold isOpenClient in H.
  destruct (filter (fun x => cid x =? c) (the_clients s)) as [|x l] eqn:E;
    [discriminate|].
  assert (Hx : In x (filter (fun x => cid x =? c) (the_clients s)))
    by (rewrite E; now left).
  apply filter_In in Hx as [Hin Hx]. apply Nat.eqb_eq in Hx.
  rewrite Forall_forall in Hfr. specialize (Hfr x Hin). lia.
Qed.

(** X23.  Clients do not disturb one another, as long as the process
    lives.  In every state that the event loop reaches, a socket that is
    open stays open, and so keeps being served, through every run of a
    listener or callback that returns, except the closing and the close
    of that very socket: other clients connecting with a request target
    that parses, being turned away, sending, closing or leaving, and the
    listeners and callbacks of the link, leave it as it is. *)
Theorem open_client_stays_open cfg evs c e :
  isOpenClient c (after cfg evs) = true ->
  e <> EvWsPeerClosing c ->
  e <> EvWsClose c ->
  isOpenClient c (state_of (step cfg e) (after cfg evs)) = true.
Proof.
  intros H Hp Hc. pose proof (inv_fresh (after_Inv cfg evs)) as Hfr.
  set (s := after cfg evs) in *.
  pose proof (@open_client_below c s Hfr H) as Hlt.
  unfold isOpenClient in *. rewrite step_the_clients.
  destruct e; try exact H.
  - rewrite connection_clients by assumption.
    destruct (wss s) eqn:E.
    + rewrite filter_app. cbn [filter]. rewrite newcomer_cid.
      destruct (Nat.eqb_spec (nextClient s) c); [lia|].
      now rewrite app_nil_r.
    + unfold the_clients in H. now rewrite E in H.
  - simpl. rewrite filter_name_update; [exact H | | apply closing_cid].
    intros ->. now apply Hp.
  - simpl. rewrite filter_name_forget; [exact H|].
    intros ->. now apply Hc.
Qed.

Lemma open_client_stays_open_witness :
  isOpenClient 1
    (state_of (step example_config (EvWsClose 0))
       (after example_config
          [EvOpenCallback None;
           EvWsConnection (Some (js "10.0.0.2")) (Some (js "secret"));
           EvWsConnection (Some (js "10.0.0.3")) (Some (js "secret"))])) =
  true.
Proof.
  apply (@open_client_stays_open example_config
           [EvOpenCallback None;
            EvWsConnection (Some (js "10.0.0.2")) (Some (js "secret"));
            EvWsConnection (Some (js "10.0.0.3")) (Some (js "secret"))]
           1 (EvWsClose 0)).
  - reflexivity.
  - discriminate.
  - discriminate.
Defined.
